(** * crtwtch: TLS certificate expiry watcher

    A shallow embedding of [crtwtch.go]: the prober [GetExpirationDate], the
    notifier [SendWxwork] and the sweep of [main] over the configured groups.

    - Go's [float64] arithmetic in [time.Duration.Hours] and in
      [int(... / 24)] is modelled exactly: every operation returns the
      exact rational result rounded to the nearest binary64 value, ties to
      even (module [Float64]); the Standard Library's [SpecFloat] is used as
      an independent reference on concrete inputs (module [Float64Ref]).
    - The network, the clock and the logger are the outside world.  The
      program runs in a small state monad over the trace of the events it
      has produced; the world answers each request as a function of that
      trace, so that any behaviour of the network is covered. *)

From Stdlib Require Import ZArith QArith Qround Qpower Lia Lqa.
From Stdlib Require Import List String Ascii Bool DecimalString SpecFloat.
Import ListNotations.

Open Scope Z_scope.

(** ** binary64 arithmetic, round to nearest even *)

Module Float64.

(** A finite [float64] is represented by the rational number it denotes.
    Infinities and NaN are left out: the program converts 64-bit integers,
    adds them and divides by the non-zero constants 3.6e12 and 24 only, so
    every value has magnitude below 2^64. *)
Definition float64 : Type := Q.

Definition prec : Z := 53.
Definition emin : Z := -1074.

(** [ilog2 x] is the floor of the binary logarithm of [x > 0]. *)
Definition ilog2 (x : Q) : Z :=
  let s := Z.log2 (Zpos (Qden x)) + 1 in
  Z.log2 (Qfloor (x * 2 ^ s)%Q) - s.

(** Exponent of the unit in the last place of the binary64 format at [x],
    subnormal range included. *)
Definition cexp (x : Q) : Z := Z.max emin (ilog2 x - (prec - 1)).

(** Nearest integer, ties to even. *)
Definition rne (x : Q) : Z :=
  let f := Qfloor x in
  match Qcompare (x - inject_Z f) (1 # 2) with
  | Lt => f
  | Gt => f + 1
  | Eq => if Z.even f then f else f + 1
  end.

Definition round_pos (x : Q) : Q :=
  let e := cexp x in Qred (inject_Z (rne (x / 2 ^ e)%Q) * 2 ^ e)%Q.

(** The binary64 value nearest to the rational [x]. *)
Definition round (x : Q) : float64 :=
  match Qcompare x 0 with
  | Gt => round_pos x
  | Lt => Qopp (round_pos (Qopp x))
  | Eq => 0%Q
  end.

(** [float64(z)] for an integer [z]. *)
Definition of_int (z : Z) : float64 := round (inject_Z z).

(** [x + y] and [x / y] on [float64]. *)
Definition add (x y : float64) : float64 := round (x + y)%Q.
Definition div (x y : float64) : float64 := round (x / y)%Q.

(** [int(x)]: the fractional part is discarded, truncating toward zero. *)
Definition to_int (x : float64) : Z := Z.quot (Qnum x) (Zpos (Qden x)).

End Float64.

(** ** The same operations on the Standard Library's IEEE 754 specification *)

Module Float64Ref.

Definition of_int (z : Z) : spec_float := binary_normalize 53 1024 z 0 false.
Definition add : spec_float -> spec_float -> spec_float := SFadd 53 1024.
Definition div : spec_float -> spec_float -> spec_float := SFdiv 53 1024.

(** The rational denoted by a finite value (0 for the others). *)
Definition to_Q (f : spec_float) : Q :=
  match f with
  | S754_finite s m e =>
      Qred (inject_Z (if s then Zneg m else Zpos m) * 2 ^ e)%Q
  | _ => 0%Q
  end.

Definition Hours (d : Z) : spec_float :=
  add (of_int (Z.quot d 3600000000000))
      (div (of_int (Z.rem d 3600000000000)) (of_int 3600000000000)).

Definition days (d : Z) : spec_float := div (Hours d) (of_int 24).

End Float64Ref.

(** ** Package [time] *)

Module time.

(** [type Duration int64], a count of nanoseconds. *)
Definition Duration : Type := Z.

Definition Nanosecond : Duration := 1.
Definition Second : Duration := 1000000000 * Nanosecond.
Definition Minute : Duration := 60 * Second.
Definition Hour : Duration := 60 * Minute.

Definition minDuration : Duration := - 2 ^ 63.
Definition maxDuration : Duration := 2 ^ 63 - 1.

(** An instant of the wall clock: seconds since the epoch and nanoseconds
    within the second.  A certificate's [NotAfter] carries no monotonic
    clock reading, so [Sub] below works on wall-clock instants. *)
Record Time : Type := { sec : Z; nsec : Z }.

(** The exact distance between two instants, in nanoseconds. *)
Definition since (t u : Time) : Z :=
  (sec t - sec u) * Second + (nsec t - nsec u).

(** [t.Sub(u)]: the duration t-u, saturated to the range of [Duration]. *)
Definition Sub (t u : Time) : Duration :=
  let d := since t u in
  if d <? minDuration then minDuration
  else if maxDuration <? d then maxDuration
  else d.

(** [d.Hours()]:
<<
    hour := d / Hour
    nsec := d % Hour
    return float64(hour) + float64(nsec)/(60*60*1e9)
>> *)
Definition Hours (d : Duration) : Float64.float64 :=
  let hour := Z.quot d Hour in
  let nsec := Z.rem d Hour in
  Float64.add (Float64.of_int hour)
              (Float64.div (Float64.of_int nsec) (Float64.of_int (60 * 60 * 1000000000))).

End time.

(** ** Strings: package [strings] and the verbs of [fmt] the program uses *)

(** [strings.Contains(s, substr)]. *)
Definition strings_Contains (s substr : string) : bool :=
  match String.index 0 substr s with
  | Some _ => true
  | None => false
  end.

(** [strings.Join(elems, sep)]. *)
Definition strings_Join (elems : list string) (sep : string) : string :=
  String.concat sep elems.

(** An operand of [fmt.Sprintf]: a string or an [int]. *)
Inductive fmtArg : Type :=
| ArgS (s : string)
| ArgD (z : Z).

(** Decimal notation of an integer, as the verb [%d] prints it. *)
Definition itoa (z : Z) : string := NilZero.string_of_int (Z.to_int z).

(** One operand under the verb [v] ([s] or [d]); a mismatch prints Go's
    [%!verb(type=value)]. *)
Definition formatArg (v : ascii) (a : fmtArg) : string :=
  match a with
  | ArgS s =>
      if Ascii.eqb v "s" then s
      else String.append "%!" (String v (String.append "(string=" (String.append s ")")))
  | ArgD z =>
      if Ascii.eqb v "d" then itoa z
      else String.append "%!" (String v (String.append "(int=" (String.append (itoa z) ")")))
  end.

(** [fmt.Sprintf(format, args...)] for the verbs [%s], [%d] and [%%]; the
    other bytes of the format are copied.  Operands left over at the end of
    the format are dropped (no call of the program has any). *)
Fixpoint Sprintf (format : string) (args : list fmtArg) : string :=
  match format with
  | EmptyString => EmptyString
  | String c rest =>
      if Ascii.eqb c "%" then
        match rest with
        | EmptyString => "%!(NOVERB)"%string
        | String v rest' =>
            if Ascii.eqb v "%" then String "%" (Sprintf rest' args)
            else if (Ascii.eqb v "s" || Ascii.eqb v "d")%bool then
              match args with
              | a :: args' => String.append (formatArg v a) (Sprintf rest' args')
              | [] => String.append "%!" (String v (String.append "(MISSING)" (Sprintf rest' [])))
              end
            else String c (String v (Sprintf rest' args))
        end
      else String c (Sprintf rest args)
  end.

(** ** The types of the program and of the packages it calls *)

Import time.

(** A Go [error], by the text its [Error()] method returns. *)
Record error : Type := { Error : string }.

(** [fmt.Errorf(format, args...)]. *)
Definition fmt_Errorf (format : string) (args : list fmtArg) : error :=
  {| Error := Sprintf format args |}.

(** [slog.Level] and its [String()] method. *)
Inductive Level : Type := LevelDebug | LevelInfo | LevelWarn | LevelError.

Definition Level_String (l : Level) : string :=
  match l with
  | LevelDebug => "DEBUG"
  | LevelInfo => "INFO"
  | LevelWarn => "WARN"
  | LevelError => "ERROR"
  end.

(** [x509.Certificate], of which the program reads [NotAfter] only. *)
Record Certificate : Type := { NotAfter : Time }.

(** [tls.Config] and [net.Dialer], by the fields the program sets.  A zero
    [Timeout] means that the dial has no deadline. *)
Record tls_Config : Type := { InsecureSkipVerify : bool }.
Record net_Dialer : Type := { Dialer_Timeout : Duration }.

(** An established [*tls.Conn], by [ConnectionState().PeerCertificates]. *)
Record tls_Conn : Type := { PeerCertificates : list Certificate }.

(** [http.Request], [http.Response] and [http.Client]. *)
Record Request : Type :=
  { Method : string; URL : string; Header : list (string * string); Body : string }.
Record Response : Type := { StatusCode : Z; Response_Body : string }.
Record http_Client : Type := { Client_Timeout : Duration }.

Definition StatusOK : Z := 200.

Record WatchGroup : Type :=
  { Name : string;
    WxworkToken : string;
    Interval : Z;
    DayBeforeExpiration : Z;
    Sites : list string }.

Record Config : Type := { Version : Z; Groups : list WatchGroup }.

(** ** The outside world *)

(** What the program does to the world, in the order it does it. *)
Inductive Event : Type :=
| EvLog (level : Level) (msg : string) (attrs : list (string * string))
| EvNow (t : Time)
| EvDial (d : net_Dialer) (network addr : string) (config : tls_Config)
         (r : tls_Conn + error)
| EvConnClose
| EvHttpDo (c : http_Client) (req : Request) (r : Response + error)
| EvBodyClose
| EvSendWxwork (g : WatchGroup) (msg : string) (level : Level).
(** [EvSendWxwork] marks an entry into [SendWxwork] with its operands; it
    is no effect of the program and serves to count the calls. *)

Definition Trace : Type := list Event.

(** The world answers as a function of what has happened so far.
    [url_error] is the check of [http.NewRequest] on the URL and [Format]
    is [t.Format(layout)]; both are pure. *)
Record World : Type :=
  { clock : Trace -> Time;
    network_dial : Trace -> net_Dialer -> string -> string -> tls_Config ->
                   tls_Conn + error;
    network_http : Trace -> http_Client -> Request -> Response + error;
    url_error : string -> option error;
    Format : Time -> string -> string }.

(** Programs: state passing over the trace. *)
Definition M (A : Type) : Type := Trace -> A * Trace.

Definition ret {A : Type} (a : A) : M A := fun t => (a, t).

Definition bind {A B : Type} (m : M A) (k : A -> M B) : M B :=
  fun t => let (a, t') := m t in k a t'.

Definition emit (e : Event) : M unit := fun t => (tt, t ++ [e]).

Definition ask {A : Type} (answer : Trace -> A) (ev : A -> Event) : M A :=
  fun t => let a := answer t in (a, t ++ [ev a]).

Declare Scope prog_scope.
Delimit Scope prog_scope with prog.
Notation "x <- m ;; k" := (bind m (fun x => k))
  (at level 61, m at next level, right associativity) : prog_scope.
Notation "m ;; k" := (bind m (fun _ => k))
  (at level 61, right associativity) : prog_scope.

(** ** The program *)

Section Program.

Variable world : World.

Local Open Scope prog_scope.
Local Open Scope string_scope.

(** [slog.Info], [slog.Warn] and [slog.Error]. *)
Definition slog_Info (msg : string) (attrs : list (string * string)) : M unit :=
  emit (EvLog LevelInfo msg attrs).
Definition slog_Warn (msg : string) (attrs : list (string * string)) : M unit :=
  emit (EvLog LevelWarn msg attrs).
Definition slog_Error (msg : string) (attrs : list (string * string)) : M unit :=
  emit (EvLog LevelError msg attrs).

(** [time.Now()]. *)
Definition time_Now : M Time := ask (clock world) EvNow.

(** [tls.DialWithDialer(dialer, network, addr, config)]. *)
Definition tls_DialWithDialer (dialer : net_Dialer) (network addr : string)
    (config : tls_Config) : M (tls_Conn + error) :=
  ask (fun t => network_dial world t dialer network addr config)
      (EvDial dialer network addr config).

(** [tls.Dial(network, addr, config)] is
    [DialWithDialer(new(net.Dialer), network, addr, config)]: the zero
    dialer, which has no timeout. *)
Definition tls_Dial (network addr : string) (config : tls_Config)
    : M (tls_Conn + error) :=
  tls_DialWithDialer {| Dialer_Timeout := 0 |} network addr config.

(** [http.NewRequest(method, url, body)]. *)
Definition http_NewRequest (method url body : string) : Request + error :=
  match url_error world url with
  | Some err => inr err
  | None => inl {| Method := method; URL := url; Header := []; Body := body |}
  end.

(** [req.Header.Set(key, value)]. *)
Definition Header_Set (req : Request) (key value : string) : Request :=
  {| Method := Method req;
     URL := URL req;
     Header := (key, value)
               :: filter (fun kv => negb (String.eqb (fst kv) key)) (Header req);
     Body := Body req |}.

(** [client.Do(req)]. *)
Definition Client_Do (client : http_Client) (req : Request) : M (Response + error) :=
  ask (fun t => network_http world t client req) (EvHttpDo client req).

Definition dq : string := String (ascii_of_nat 34) EmptyString.
Definition nl : string := String (ascii_of_nat 10) EmptyString.
Definition tab : string := String (ascii_of_nat 9) EmptyString.

Definition WxworkMsgTplInfo : string :=
  String.concat ""
    [ nl; "{"; nl;
      tab; dq; "msgtype"; dq; ": "; dq; "text"; dq; ","; nl;
      tab; dq; "text"; dq; ": {"; nl;
      tab; tab; dq; "content"; dq; ": "; dq; "%s"; dq; nl;
      tab; "}"; nl;
      "}"; nl ].

(** [func (g *WatchGroup) SendWxwork(msg string, level slog.Level) error];
    [None] is the nil error. *)
Definition SendWxwork (g : WatchGroup) (msg : string) (level : Level)
    : M (option error) :=
  emit (EvSendWxwork g msg level) ;;
  let payload := Sprintf WxworkMsgTplInfo [ArgS msg] in
  if String.eqb (WxworkToken g) "" then
    slog_Warn "wxwork_token is empty, skipping wxwork notification"
              [("group", Name g)] ;;
    ret None
  else
    match http_NewRequest "POST"
            ("https://qyapi.weixin.qq.com/cgi-bin/webhook/send?key=" ++ WxworkToken g)
            payload with
    | inr err => ret (Some err)
    | inl req =>
        let req := Header_Set req "Content-Type" "application/json" in
        slog_Info "post" [("url", URL req); ("data", payload)] ;;
        r <- Client_Do {| Client_Timeout := 10 * Second |} req ;;
        match r with
        | inr err => ret (Some err)
        | inl resp =>
            if negb (StatusCode resp =? StatusOK)%Z then
              slog_Error "wxwork notification failed"
                         [("status_code", itoa (StatusCode resp)); ("group", Name g)] ;;
              emit EvBodyClose ;;
              ret (Some (fmt_Errorf "wxwork notification failed with status code: %d"
                                    [ArgD (StatusCode resp)]))
            else
              let body := Response_Body resp in
              slog_Info "body" [("response", body)] ;;
              slog_Info "wxwork notification sent successfully"
                        [("group", Name g); ("level", Level_String level)] ;;
              emit EvBodyClose ;;
              ret None
        end
    end.

(** [func GetExpirationDate(host string) (time.Time, error)]. *)
Definition GetExpirationDate (host : string) : M (Time + error) :=
  let host := if negb (strings_Contains host ":") then host ++ ":443" else host in
  r <- tls_Dial "tcp" host {| InsecureSkipVerify := true |} ;;
  match r with
  | inr err => ret (inr err)
  | inl conn =>
      let certs := PeerCertificates conn in
      if (Z.of_nat (List.length certs) =? 0)%Z then
        emit EvConnClose ;;
        ret (inr (fmt_Errorf "no certificates found" []))
      else
        emit EvConnClose ;;
        ret (inl (NotAfter (nth 0 certs {| NotAfter := {| sec := 0; nsec := 0 |} |})))
  end.

(** Line 115 of [main]: [int(expire.Sub(today).Hours() / 24)]. *)
Definition daysLeft (expire today : Time) : Z :=
  Float64.to_int (Float64.div (Hours (Sub expire today)) (Float64.of_int 24)).

(** Lines 117 to 121 of [main]: what a probed site adds to [alerts]. *)
Definition main_classify (group : WatchGroup) (site : string) (expire : Time)
    (daysLeft : Z) (alerts : list string) : list string :=
  if ((daysLeft <=? DayBeforeExpiration group) && (daysLeft >=? 0))%Z then
    (alerts ++ [Sprintf "⚠️ 证书即将过期: %s 还有 %d 天 (到期日: %s)"
                       [ArgS site; ArgD daysLeft;
                        ArgS (Format world expire "2006-01-02")]])%list
  else if (daysLeft <? 0)%Z then
    (alerts ++ [Sprintf "❗ 证书已过期: %s (到期日: %s)"
                       [ArgS site; ArgS (Format world expire "2006-01-02")]])%list
  else alerts.

(** The body of the loop over the sites, lines 108 to 121 of [main]. *)
Definition main_site (group : WatchGroup) (today : Time) (alerts : list string)
    (site : string) : M (list string) :=
  slog_Info "checking site:" [("site", site)] ;;
  r <- GetExpirationDate site ;;
  match r with
  | inr err =>
      slog_Error "failed to check cert:" [("site", site); ("error", Error err)] ;;
      ret (alerts ++ [Sprintf "❗ 检测失败: %s" [ArgS site]])%list
  | inl expire =>
      let daysLeft := daysLeft expire today in
      slog_Info "site checked:"
                [("site", site); ("expire", Format world expire "2006-01-02");
                 ("days_left", itoa daysLeft)] ;;
      ret (main_classify group site expire daysLeft alerts)
  end.

(** [for _, site := range group.Sites]. *)
Fixpoint main_sites (group : WatchGroup) (today : Time) (sites : list string)
    (alerts : list string) : M (list string) :=
  match sites with
  | [] => ret alerts
  | site :: rest =>
      alerts' <- main_site group today alerts site ;;
      main_sites group today rest alerts'
  end.

(** Lines 123 to 131 of [main]: the report of a group's alerts. *)
Definition main_report (group : WatchGroup) (alerts : list string) : M unit :=
  if (Z.of_nat (List.length alerts) <=? 0)%Z then
    slog_Info "no alerts to send" [] ;;
    now <- time_Now ;;
    let text := Sprintf "✅ [%s] 组 %s 的证书监控正常，共 %d 个"
                        [ArgS (Format world now "2006-01-02"); ArgS (Name group);
                         ArgD (Z.of_nat (List.length (Sites group)))] in
    _ <- SendWxwork group text LevelInfo ;;
    ret tt
  else
    slog_Info "sending alerts" [("count", itoa (Z.of_nat (List.length alerts)))] ;;
    now <- time_Now ;;
    let text := Sprintf ("🚨 [%s] 组 %s 的证书监控发现 %d 个问题:" ++ nl ++ "%s")
                        [ArgS (Format world now "2006-01-02"); ArgS (Name group);
                         ArgD (Z.of_nat (List.length alerts));
                         ArgS (strings_Join alerts nl)] in
    _ <- SendWxwork group text LevelWarn ;;
    ret tt.

(** The body of the loop over the groups, lines 104 to 131 of [main]. *)
Definition main_group (group : WatchGroup) : M unit :=
  slog_Info "watching group:" [("name", Name group)] ;;
  today <- time_Now ;;
  alerts <- main_sites group today (Sites group) [] ;;
  main_report group alerts.

(** [for _, group := range config.Groups]. *)
Fixpoint main_groups (groups : list WatchGroup) : M unit :=
  match groups with
  | [] => ret tt
  | group :: rest => main_group group ;; main_groups rest
  end.

(** [main] once the configuration is decoded: one sweep over the groups. *)
Definition main (config : Config) : M unit := main_groups (Groups config).

End Program.

(** ** Reading a trace *)

(** The addresses dialled, each with the answer of the network. *)
Definition dials (t : Trace) : list (string * (tls_Conn + error)) :=
  flat_map (fun e => match e with
                     | EvDial _ _ addr _ r => [(addr, r)]
                     | _ => []
                     end) t.

(** The dialers the connections were made with. *)
Definition dialers (t : Trace) : list net_Dialer :=
  flat_map (fun e => match e with EvDial d _ _ _ _ => [d] | _ => [] end) t.

(** The readings of the clock. *)
Definition nows (t : Trace) : list Time :=
  flat_map (fun e => match e with EvNow n => [n] | _ => [] end) t.

(** The calls of [SendWxwork]. *)
Definition sends (t : Trace) : list (WatchGroup * string * Level) :=
  flat_map (fun e => match e with
                     | EvSendWxwork g msg level => [(g, msg, level)]
                     | _ => []
                     end) t.

(** The HTTP requests sent, each with the client that sent it. *)
Definition posts (t : Trace) : list (http_Client * Request) :=
  flat_map (fun e => match e with EvHttpDo c req _ => [(c, req)] | _ => [] end) t.

(** ** The specification's vocabulary *)

(** Prober (4.1): port 443 unless the site names a port. *)
Definition dial_addr (site : string) : string :=
  if strings_Contains site ":" then site else String.append site ":443".

Definition no_certificates : error := {| Error := "no certificates found" |}.

(** Prober (4.1): the expiry of the first certificate presented; an error
    if the connection failed or no certificate was presented. *)
Definition probe_of (r : tls_Conn + error) : Time + error :=
  match r with
  | inr err => inr err
  | inl conn =>
      match PeerCertificates conn with
      | [] => inr no_certificates
      | leaf :: _ => inl (NotAfter leaf)
      end
  end.

Inductive Classification : Type :=
| Healthy
| ExpiringSoon (daysLeft : Z)
| Expired (daysLeft : Z)
| Unreachable.

(** Evaluator (4.2, step 2) on the days left. *)
Definition classify_days (redline D : Z) : Classification :=
  if D <? 0 then Expired D
  else if D <=? redline then ExpiringSoon D
  else Healthy.

(** Evaluator (4.2, step 2) on a probe result. *)
Definition classify (redline : Z) (today : Time) (r : Time + error) : Classification :=
  match r with
  | inr _ => Unreachable
  | inl expire => classify_days redline (daysLeft expire today)
  end.

Definition healthy (c : Classification) : bool :=
  match c with Healthy => true | _ => false end.

(** The three alert lines. *)
Definition line_failed (site : string) : string :=
  String.append "❗ 检测失败: " site.

Definition line_soon (world : World) (site : string) (D : Z) (expire : Time) : string :=
  String.concat ""
    ["⚠️ 证书即将过期: "; site; " 还有 "; itoa D; " 天 (到期日: ";
     Format world expire "2006-01-02"; ")"]%string.

Definition line_expired (world : World) (site : string) (expire : Time) : string :=
  String.concat ""
    ["❗ 证书已过期: "; site; " (到期日: "; Format world expire "2006-01-02"; ")"]%string.

(** The alert line of a classified site, none for a healthy one. *)
Definition alert_line (world : World) (site : string) (r : Time + error)
    (c : Classification) : list string :=
  match c, r with
  | Unreachable, _ => [line_failed site]
  | ExpiringSoon D, inl expire => [line_soon world site D expire]
  | Expired _, inl expire => [line_expired world site expire]
  | _, _ => []
  end.

(** The alert lines of a list of sites, given the answers of the network
    to the dials of the sites, in the order of the site list. *)
Definition sites_alerts (world : World) (redline : Z) (today : Time)
    (sites : list string) (answers : list (tls_Conn + error)) : list string :=
  flat_map (fun sr => alert_line world (fst sr) (snd sr) (classify redline today (snd sr)))
           (combine sites (map probe_of answers)).

Definition group_alerts (world : World) (g : WatchGroup) (today : Time)
    (answers : list (tls_Conn + error)) : list string :=
  sites_alerts world (DayBeforeExpiration g) today (Sites g) answers.

(** The classifications of a group's sites, in the order of the site list. *)
Definition group_classes (g : WatchGroup) (today : Time)
    (answers : list (tls_Conn + error)) : list Classification :=
  map (fun r => classify (DayBeforeExpiration g) today (probe_of r)) answers.

(** Evaluator (4.2, steps 3 and 4): the two reports. *)
Definition report_clear (date name : string) (count : nat) : string :=
  String.concat ""
    ["✅ ["; date; "] 组 "; name; " 的证书监控正常，共 "; itoa (Z.of_nat count); " 个"]%string.

Definition report_problems (date name : string) (lines : list string) : string :=
  String.concat ""
    ["🚨 ["; date; "] 组 "; name; " 的证书监控发现 ";
     itoa (Z.of_nat (List.length lines)); " 个问题:"; nl;
     String.concat nl lines]%string.

(** The days left as a function of the duration [expire.Sub(today)]. *)
Definition days_of (d : Duration) : Z :=
  Float64.to_int (Float64.div (Hours d) (Float64.of_int 24)).

(** The fractional hours of [Hours], as a function of the nanoseconds. *)
Definition hour_fraction (n : Z) : Float64.float64 :=
  Float64.div (Float64.of_int n) (Float64.of_int (60 * 60 * 1000000000)).

(** The call of [SendWxwork] that reports the alert lines of a group. *)
Definition group_report (world : World) (g : WatchGroup) (now : Time)
    (lines : list string) : WatchGroup * string * Level :=
  match lines with
  | [] => (g, report_clear (Format world now "2006-01-02") (Name g)
                           (List.length (Sites g)), LevelInfo)
  | _ :: _ => (g, report_problems (Format world now "2006-01-02") (Name g) lines,
               LevelWarn)
  end.

(** The dialer and the TLS configuration the prober dials with. *)
Definition the_dialer : net_Dialer := {| Dialer_Timeout := 0 |}.
Definition the_config : tls_Config := {| InsecureSkipVerify := true |}.

(** The first reading of the clock in a list of events: the [today] of a
    group's evaluation. *)
Definition first_now (evs : Trace) : Time := hd {| sec := 0; nsec := 0 |} (nows evs).

(** A site that is not healthy. *)
Definition unhealthy (c : Classification) : bool := negb (healthy c).

(** The events a run has added to the trace [t] it started from. *)
Definition new_events {A : Type} (t : Trace) (run : A * Trace) : Trace :=
  skipn (List.length t) (snd run).

(** The exact quotient the specification describes for the days left: the
    distance in nanoseconds over 24 hours, truncated toward zero. *)
Definition exact_days (expire today : Time) : Z :=
  Z.quot (since expire today) (24 * Hour).

(** ** The distances at which the days left are the exact quotient *)

(** The nanoseconds that separate a distance from the next whole number of
    days away from zero. *)
Definition day_gap (d : Z) : Z := 24 * Hour - Z.abs (Z.rem d (24 * Hour)).

(** The width in nanoseconds of the stretch before a whole number of days
    in which [Hours()] already returns the whole number of hours: half a
    unit in the last place of the float64 hour count 24 * (n + 1), where n
    are the whole days of the distance. *)
Definition rounding_window (d : Z) : Z :=
  (Hour * 2 ^ Z.log2 (24 * (Z.abs (Z.quot d (24 * Hour)) + 1))) / 2 ^ 53.

(** The distances at which line 115 gives the exact quotient: within the
    range of [Duration] those outside the rounding window, beyond it those
    short of 106752 days. *)
Definition exact_at (d : Z) : bool :=
  if d <? minDuration then - (106752 * (24 * Hour)) <? d
  else if maxDuration <? d then d <? 106752 * (24 * Hour)
  else rounding_window d <? day_gap d.

(** ** A concrete world, for the scenarios of the specification *)

Module Scenario.

Local Open Scope string_scope.

Definition pad (width : nat) (s : string) : string :=
  String.append (String.concat "" (repeat "0" (width - String.length s))) s.

(** The calendar date of an instant in UTC, in the layout [2006-01-02]. *)
Definition utc_date (t : Time) : string :=
  let z := sec t / 86400 + 719468 in
  let era := z / 146097 in
  let doe := z - era * 146097 in
  let yoe := (doe - doe / 1460 + doe / 36524 - doe / 146096) / 365 in
  let doy := doe - (365 * yoe + yoe / 4 - yoe / 100) in
  let mp := (5 * doy + 2) / 153 in
  let d := doy - (153 * mp + 2) / 5 + 1 in
  let m := if (mp <? 10)%Z then mp + 3 else mp - 9 in
  let y := yoe + era * 400 + (if (m <=? 2)%Z then 1 else 0) in
  String.concat "-" [pad 4 (itoa y); pad 2 (itoa m); pad 2 (itoa d)].

(** 2024-01-01T00:00:00Z and the instants a number of days after it. *)
Definition new_year : Time := {| sec := 1704067200; nsec := 0 |}.
Definition days_after (n : Z) : Time := {| sec := 1704067200 + n * 86400; nsec := 0 |}.

Definition cert (expire : Time) : tls_Conn + error :=
  inl {| PeerCertificates := [{| NotAfter := expire |}] |}.

(** [a.example] expires in 4 days, [c.example] in 90 days, [d.example]
    expired 9 days ago, [e.example] presents no certificate and every
    other host refuses the connection.  The webhook answers 200. *)
Definition world : World :=
  {| clock := fun _ => new_year;
     network_dial := fun _ _ _ addr _ =>
       if String.eqb addr "a.example:443" then cert (days_after 4)
       else if String.eqb addr "c.example:443" then cert (days_after 90)
       else if String.eqb addr "d.example:443" then cert (days_after (-9))
       else if String.eqb addr "e.example:443" then inl {| PeerCertificates := [] |}
       else inr {| Error := "dial tcp: connect: connection refused" |};
     network_http := fun _ _ _ => inl {| StatusCode := 200; Response_Body := "ok" |};
     url_error := fun _ => None;
     Format := fun t _ => utc_date t |}.

Definition prod : WatchGroup :=
  {| Name := "prod"; WxworkToken := "k"; Interval := 60;
     DayBeforeExpiration := 7; Sites := ["a.example"; "b.example"] |}.

Definition calm : WatchGroup :=
  {| Name := "calm"; WxworkToken := ""; Interval := 60;
     DayBeforeExpiration := 7; Sites := ["c.example"] |}.

Definition empty : WatchGroup :=
  {| Name := "empty"; WxworkToken := ""; Interval := 60;
     DayBeforeExpiration := 7; Sites := [] |}.

Definition config : Config := {| Version := 1; Groups := [prod; calm; empty] |}.

End Scenario.


(** ** Further readings of a trace and of a run *)

(** The connections established and the connections closed. *)
Definition established (t : Trace) : nat :=
  List.length (filter (fun e => match e with EvDial _ _ _ _ (inl _) => true | _ => false end) t).

Definition closes (t : Trace) : nat :=
  List.length (filter (fun e => match e with EvConnClose => true | _ => false end) t).

(** The HTTP responses received and the response bodies closed. *)
Definition responses (t : Trace) : nat :=
  List.length (filter (fun e => match e with EvHttpDo _ _ (inl _) => true | _ => false end) t).

Definition body_closes (t : Trace) : nat :=
  List.length (filter (fun e => match e with EvBodyClose => true | _ => false end) t).

(** A program adds events with the property [P] to any trace. *)
Definition adds {A : Type} (P : Trace -> Prop) (m : M A) : Prop :=
  forall t : Trace, exists evs : Trace, snd (m t) = t ++ evs /\ P evs.

(** The dials of a trace are all made the way [GetExpirationDate] dials:
    over tcp to an address with a port, without a deadline and without
    verifying the certificate. *)
Definition dial_shape (e : Event) : Prop :=
  match e with
  | EvDial d network addr config _ =>
      Dialer_Timeout d = 0 /\ network = "tcp"%string /\
      strings_Contains addr ":" = true /\ InsecureSkipVerify config = true
  | _ => True
  end.

(** The request [SendWxwork] sends for a token and a message. *)
Definition webhook_url (token : string) : string :=
  String.append "https://qyapi.weixin.qq.com/cgi-bin/webhook/send?key=" token.

Definition payload_prefix : string :=
  String.concat ""
    [ nl; "{"; nl;
      tab; dq; "msgtype"; dq; ": "; dq; "text"; dq; ","; nl;
      tab; dq; "text"; dq; ": {"; nl;
      tab; tab; dq; "content"; dq; ": "; dq ]%string.

Definition payload_suffix : string :=
  String.concat "" [ dq; nl; tab; "}"; nl; "}"; nl ]%string.

Definition wxwork_request (token msg : string) : Request :=
  {| Method := "POST";
     URL := webhook_url token;
     Header := [("Content-Type", "application/json")]%string;
     Body := String.append payload_prefix (String.append msg payload_suffix) |}.

Definition wxwork_client : http_Client := {| Client_Timeout := 10 * Second |}.

(** Every request of a trace is the request of a [SendWxwork] call of the
    same trace, for a group with a token. *)
Definition posts_come_from_sends (evs : Trace) : Prop :=
  forall (c : http_Client) (req : Request),
    In (c, req) (posts evs) ->
    c = wxwork_client /\
    exists (g : WatchGroup) (msg : string) (level : Level),
      In (g, msg, level) (sends evs) /\
      WxworkToken g <> ""%string /\
      req = wxwork_request (WxworkToken g) msg.

(** ** Concrete worlds for the notifier *)

Module Webhook.

(** A webhook that answers every request with the given status. *)
Definition answering (status : Z) : World :=
  {| clock := clock Scenario.world;
     network_dial := network_dial Scenario.world;
     network_http := fun _ _ _ => inl {| StatusCode := status; Response_Body := "no" |};
     url_error := fun _ => None;
     Format := Format Scenario.world |}.

(** A network on which no request gets through. *)
Definition unreachable : World :=
  {| clock := clock Scenario.world;
     network_dial := network_dial Scenario.world;
     network_http := fun _ _ _ => inr {| Error := "context deadline exceeded" |};
     url_error := fun _ => None;
     Format := Format Scenario.world |}.

(** A URL parser that rejects control characters, as [net/url] does. *)
Definition strict : World :=
  {| clock := clock Scenario.world;
     network_dial := network_dial Scenario.world;
     network_http := network_http Scenario.world;
     url_error := fun url =>
       if strings_Contains url nl
       then Some {| Error := "net/url: invalid control character in URL" |}
       else None;
     Format := Format Scenario.world |}.

Definition broken : WatchGroup :=
  {| Name := "broken"; WxworkToken := String.append "k" nl; Interval := 60;
     DayBeforeExpiration := 7; Sites := [] |}.

End Webhook.

(** ** Start-up: the flags, the example configuration and the configuration file *)

(** [strings.ToLower(s)] on the ASCII letters; the other bytes are left as
    they are.  Go also maps the letters outside ASCII, none of which has
    [y], [e] or [s] as its lower case, so the comparison of the result with
    the string [yes], the only use the program makes of it, comes out the
    same. *)
Definition lower (c : ascii) : ascii :=
  let n := N_of_ascii c in
  if ((65 <=? n) && (n <=? 90))%N then ascii_of_N (n + 32) else c.

Fixpoint strings_ToLower (s : string) : string :=
  match s with
  | EmptyString => EmptyString
  | String c rest => String (lower c) (strings_ToLower rest)
  end.

(** [os.FileInfo], by [IsDir()]. *)
Record FileInfo : Type := { IsDir : bool }.

(** What start-up does to the operating system. *)
Inductive OsEvent : Type :=
| OsStat (name : string) (r : option FileInfo)
| OsPrintln (line : string)
| OsScanln (input : string)
| OsWriteFile (name data : string) (perm : Z)
| OsDecodeFile (path : string) (r : Config + error)
| OsExit (code : Z).

(** The machine the program starts on: [os.Stat] ([None] for an error),
    the word [fmt.Scanln] reads from the standard input, the result of
    [toml.DecodeFile] and the embedded [config.example.toml]. *)
Record Host : Type :=
  { os_Stat : string -> option FileInfo;
    stdin_word : string;
    toml_DecodeFile : string -> Config + error;
    defaultTemplate : string }.

(** The answers that confirm the overwriting, line 82 of [main]. *)
Definition confirms (input : string) : bool :=
  (String.eqb input "y" || String.eqb input "Y"
   || String.eqb (strings_ToLower input) "yes")%bool.

(** [os.WriteFile("config.example.toml", []byte(defaultTemplate), 0644)]. *)
Definition write_example (host : Host) : OsEvent :=
  OsWriteFile "config.example.toml" (defaultTemplate host) 420.

(** Lines 76 to 90 of [main]: the flag [-g]. *)
Definition main_generate (host : Host) : list OsEvent :=
  let fi := os_Stat host "config.example.toml" in
  OsStat "config.example.toml" fi ::
  match fi with
  | Some info =>
      if negb (IsDir info) then
        let input := stdin_word host in
        [OsPrintln "config.example.toml already exists";
         OsPrintln "override? [y/n]";
         OsScanln input]
        ++ (if confirms input
            then [write_example host; OsPrintln "generated config.example.toml"]
            else [])
      else [write_example host]
  | None => [write_example host]
  end.

(** [main] after [flag.Parse()], with the values of the flags [-g] and
    [-c]: the events of the process, those of the operating system on the
    left and those of the sweep on the right.  [os.Exit] ends the process;
    the sweep starts on the empty trace. *)
Definition main_entry (host : Host) (world : World) (gen : bool) (conf : string)
    : list (OsEvent + Event) :=
  if gen then map inl (main_generate host)
  else
    let fi := os_Stat host conf in
    inl (OsStat conf fi) ::
    match fi with
    | Some info =>
        if IsDir info then
          [inr (EvLog LevelError "config file not found:" [("config", conf)]%string);
           inl (OsExit 1)]
        else
          let r := toml_DecodeFile host conf in
          inl (OsDecodeFile conf r) ::
          match r with
          | inr err =>
              [inr (EvLog LevelError "failed to parse config file:"
                          [("error", Error err)]%string);
               inl (OsExit 1)]
          | inl config => map inr (snd (main world config []))
          end
    | None =>
        [inr (EvLog LevelError "config file not found:" [("config", conf)]%string);
         inl (OsExit 1)]
    end.

(** The sweep's events, the files written and the exit codes of a process. *)
Definition core_events (p : list (OsEvent + Event)) : Trace :=
  flat_map (fun e => match e with inr c => [c] | inl _ => [] end) p.

Definition writes (p : list OsEvent) : list (string * string * Z) :=
  flat_map (fun e => match e with
                     | OsWriteFile name data perm => [(name, data, perm)]
                     | _ => []
                     end) p.

Definition os_events (p : list (OsEvent + Event)) : list OsEvent :=
  flat_map (fun e => match e with inl o => [o] | inr _ => [] end) p.

Definition exits (p : list OsEvent) : list Z :=
  flat_map (fun e => match e with OsExit code => [code] | _ => [] end) p.

Definition prompts (p : list OsEvent) : list string :=
  flat_map (fun e => match e with OsScanln input => [input] | _ => [] end) p.

(** A machine for the examples: [config.example.toml] exists, [config.toml]
    holds the configuration of the scenario and [conf.d] is a directory. *)
Module Machine.

Definition answering (input : string) : Host :=
  {| os_Stat := fun name =>
       if String.eqb name "config.example.toml" then Some {| IsDir := false |}
       else if String.eqb name "config.toml" then Some {| IsDir := false |}
       else if String.eqb name "conf.d" then Some {| IsDir := true |}
       else None;
     stdin_word := input;
     toml_DecodeFile := fun path =>
       if String.eqb path "config.toml" then inl Scenario.config
       else inr {| Error := "toml: line 1: expected key" |};
     defaultTemplate := "version = 1" |}.

End Machine.

(** * Properties *)

(** ** Rounding to binary64 is monotone and exact on binary64 values *)

Module Float64Facts.

Import Float64.
Local Open Scope Q_scope.

Lemma pow2_pos (e : Z) : 0 < 2 ^ e.
Proof. apply Qpower_0_lt. reflexivity. Qed.

Lemma pow2_add (a b : Z) : 2 ^ (a + b) == 2 ^ a * 2 ^ b.
Proof. apply Qpower_plus. discriminate. Qed.

Lemma pow2_le (a b : Z) : (a <= b)%Z -> 2 ^ a <= 2 ^ b.
Proof. intros H. apply Qpower_le_compat_l; [exact H | discriminate]. Qed.

Lemma pow2_lt_inv (a b : Z) : 2 ^ a < 2 ^ b -> (a < b)%Z.
Proof. intros H. apply (Qpower_lt_compat_l_inv 2); [exact H | reflexivity]. Qed.

Lemma pow2_inject (n : Z) : (0 <= n)%Z -> inject_Z (2 ^ n) == 2 ^ n.
Proof. intros H. apply (Zpower_Qpower 2 n H). Qed.

Lemma Qdiv_pow2_le (x y : Q) (e : Z) : x <= y -> x / 2 ^ e <= y / 2 ^ e.
Proof.
  intros H. unfold Qdiv. apply Qmult_le_compat_r; [exact H |].
  apply Qlt_le_weak, Qinv_lt_0_compat, pow2_pos.
Qed.

Lemma Qdiv_pow2_lt_l (x : Q) (a e : Z) : x < 2 ^ (a + e) -> x / 2 ^ e < 2 ^ a.
Proof.
  intros H. apply Qlt_shift_div_r; [apply pow2_pos |].
  rewrite <- pow2_add. exact H.
Qed.

Lemma Qdiv_pow2_le_r (x : Q) (a e : Z) : 2 ^ (a + e) <= x -> 2 ^ a <= x / 2 ^ e.
Proof.
  intros H. apply Qle_shift_div_l; [apply pow2_pos |].
  rewrite <- pow2_add. exact H.
Qed.

Lemma ilog2_spec (x : Q) : 0 < x -> 2 ^ ilog2 x <= x /\ x < 2 ^ (ilog2 x + 1).
Proof.
  intros Hx. unfold ilog2.
  set (s := (Z.log2 (Zpos (Qden x)) + 1)%Z).
  set (y := x * 2 ^ s).
  assert (Hs : (0 <= s)%Z) by (unfold s; pose proof (Z.log2_nonneg (Zpos (Qden x))); lia).
  assert (Hy : 1 <= y).
  { unfold y. rewrite <- (pow2_inject s Hs).
    destruct x as [p q]. unfold Qlt in Hx. simpl in Hx.
    unfold Qle, Qmult, inject_Z. simpl.
    assert (Hq : (Zpos q < 2 ^ s)%Z).
    { unfold s. simpl. apply Z.log2_spec. lia. }
    nia. }
  assert (Hn : (1 <= Qfloor y)%Z).
  { rewrite <- (Qfloor_Z 1). apply Qfloor_resp_le. exact Hy. }
  set (n := Qfloor y) in *.
  destruct (Z.log2_spec n ltac:(lia)) as [Hlo Hhi].
  set (k := Z.log2 n) in *.
  assert (Hk : (0 <= k)%Z) by apply Z.log2_nonneg.
  assert (Hlo' : 2 ^ k <= y).
  { rewrite <- (pow2_inject k Hk). apply Qle_trans with (inject_Z n).
    - rewrite <- Zle_Qle. exact Hlo.
    - apply Qfloor_le. }
  assert (Hhi' : y < 2 ^ (k + 1)).
  { rewrite <- (pow2_inject (k + 1)) by lia.
    apply Qlt_le_trans with (inject_Z (n + 1)).
    - apply Qlt_floor.
    - rewrite <- Zle_Qle. lia. }
  split.
  - apply (Qmult_le_r _ _ (2 ^ s)); [apply pow2_pos |].
    rewrite <- pow2_add. replace (k - s + s)%Z with k by lia. exact Hlo'.
  - apply (Qmult_lt_r _ _ (2 ^ s)); [apply pow2_pos |].
    rewrite <- pow2_add. replace (k - s + 1 + s)%Z with (k + 1)%Z by lia. exact Hhi'.
Qed.

Lemma rne_le (x y : Q) : x <= y -> (rne x <= rne y)%Z.
Proof.
  intros Hxy. pose proof (Qfloor_resp_le x y Hxy) as Hf.
  assert (Hx : (Qfloor x <= rne x <= Qfloor x + 1)%Z).
  { unfold rne. destruct (Qcompare _ _); [destruct (Z.even _)| |]; lia. }
  assert (Hy : (Qfloor y <= rne y <= Qfloor y + 1)%Z).
  { unfold rne. destruct (Qcompare _ _); [destruct (Z.even _)| |]; lia. }
  destruct (Z.eq_dec (Qfloor x) (Qfloor y)) as [E | N]; [| lia].
  unfold rne in *. rewrite <- E in *.
  destruct (Qcompare_spec (x - inject_Z (Qfloor x)) (1 # 2)) as [Hcx | Hcx | Hcx];
  destruct (Qcompare_spec (y - inject_Z (Qfloor x)) (1 # 2)) as [Hcy | Hcy | Hcy];
  try destruct (Z.even (Qfloor x)); try lia; exfalso; lra.
Qed.

Lemma rne_inject (n : Z) : rne (inject_Z n) = n.
Proof.
  unfold rne. rewrite Qfloor_Z.
  destruct (Qcompare_spec (inject_Z n - inject_Z n) (1 # 2)) as [H | H | H];
    [exfalso; lra | reflexivity | exfalso; lra].
Qed.

Lemma rne_eq (x : Q) (n : Z) : x == inject_Z n -> rne x = n.
Proof.
  intros H.
  assert (H1 : (rne x <= rne (inject_Z n))%Z) by (apply rne_le; rewrite H; apply Qle_refl).
  assert (H2 : (rne (inject_Z n) <= rne x)%Z) by (apply rne_le; rewrite H; apply Qle_refl).
  rewrite rne_inject in H1, H2. lia.
Qed.

(* bounds of the rounded significand *)
Lemma cexp_spec (x : Q) : 0 < x ->
  x < 2 ^ (cexp x + prec) /\ (cexp x = emin \/ 2 ^ (cexp x + (prec - 1)) <= x).
Proof.
  intros Hx. destruct (ilog2_spec x Hx) as [Hlo Hhi]. unfold cexp.
  split.
  - eapply Qlt_le_trans; [exact Hhi |]. apply pow2_le. unfold prec. lia.
  - destruct (Z.max_spec emin (ilog2 x - (prec - 1))) as [[_ E] | [_ E]]; rewrite E.
    + right. replace (ilog2 x - (prec - 1) + (prec - 1))%Z with (ilog2 x) by lia. exact Hlo.
    + left. reflexivity.
Qed.

Lemma round_pos_value (x : Q) :
  round_pos x == inject_Z (rne (x / 2 ^ cexp x)) * 2 ^ cexp x.
Proof. unfold round_pos. apply Qred_correct. Qed.

Lemma round_pos_le (x y : Q) : 0 < x -> x <= y -> round_pos x <= round_pos y.
Proof.
  intros Hx Hxy. assert (Hy : 0 < y) by lra.
  rewrite !round_pos_value.
  destruct (cexp_spec x Hx) as [Hxhi Hxlo], (cexp_spec y Hy) as [Hyhi Hylo].
  assert (Hemin : forall z, (emin <= cexp z)%Z) by (intros z; unfold cexp; lia).
  destruct (Z.lt_trichotomy (cexp x) (cexp y)) as [Hlt | [Heq | Hgt]].
  - (* the significand of x is at most 2^prec, that of y at least 2^(prec-1) *)
    destruct Hylo as [E | Hylo]; [pose proof (Hemin x); lia |].
    apply Qle_trans with (2 ^ (cexp x + prec)).
    + rewrite (Z.add_comm (cexp x) prec), pow2_add.
      apply Qmult_le_compat_r; [| apply Qlt_le_weak, pow2_pos].
      rewrite <- (pow2_inject prec) by (unfold prec; lia).
      rewrite <- Zle_Qle. rewrite <- (rne_inject (2 ^ prec)). apply rne_le.
      rewrite (pow2_inject prec) by (unfold prec; lia).
      apply Qlt_le_weak, Qdiv_pow2_lt_l. rewrite Z.add_comm. exact Hxhi.
    + apply Qle_trans with (2 ^ (cexp y + (prec - 1))); [apply pow2_le; lia |].
      rewrite (Z.add_comm (cexp y) (prec - 1)), pow2_add.
      apply Qmult_le_compat_r; [| apply Qlt_le_weak, pow2_pos].
      rewrite <- (pow2_inject (prec - 1)) by (unfold prec; lia).
      rewrite <- Zle_Qle. rewrite <- (rne_inject (2 ^ (prec - 1))). apply rne_le.
      rewrite (pow2_inject (prec - 1)) by (unfold prec; lia).
      apply Qdiv_pow2_le_r. rewrite Z.add_comm. exact Hylo.
  - rewrite Heq. apply Qmult_le_compat_r; [| apply Qlt_le_weak, pow2_pos].
    rewrite <- Zle_Qle. apply rne_le, Qdiv_pow2_le, Hxy.
  - exfalso. destruct Hxlo as [E | Hxlo]; [pose proof (Hemin y); lia |].
    assert (H : 2 ^ (cexp x + (prec - 1)) < 2 ^ (cexp y + prec)) by lra.
    apply pow2_lt_inv in H. lia.
Qed.

Lemma round_pos_nonneg (x : Q) : 0 < x -> 0 <= round_pos x.
Proof.
  intros Hx. rewrite round_pos_value.
  apply Qmult_le_0_compat; [| apply Qlt_le_weak, pow2_pos].
  replace 0 with (inject_Z 0) by reflexivity. rewrite <- Zle_Qle.
  rewrite <- (rne_inject 0). apply rne_le.
  apply Qle_shift_div_l; [apply pow2_pos |].
  change (inject_Z 0) with 0. rewrite Qmult_0_l. apply Qlt_le_weak, Hx.
Qed.

Lemma round_le (x y : Q) : x <= y -> round x <= round y.
Proof.
  intros Hxy. unfold round.
  destruct (Qcompare_spec x 0) as [Hx | Hx | Hx];
  destruct (Qcompare_spec y 0) as [Hy | Hy | Hy]; try (exfalso; lra); try apply Qle_refl.
  - apply round_pos_nonneg. lra.
  - assert (H := round_pos_nonneg (- x) ltac:(lra)). lra.
  - apply Qopp_le_compat. apply round_pos_le; lra.
  - assert (H1 := round_pos_nonneg (- x) ltac:(lra)).
    assert (H2 := round_pos_nonneg y ltac:(lra)). lra.
  - apply round_pos_le; lra.
Qed.

Lemma to_int_le (x y : Q) : x <= y -> (to_int x <= to_int y)%Z.
Proof.
  destruct x as [a b], y as [c d]. unfold Qle, to_int. simpl. intros H.
  rewrite <- (Z.quot_mul_cancel_r a (Zpos b) (Zpos d)) by lia.
  rewrite <- (Z.quot_mul_cancel_r c (Zpos d) (Zpos b)) by lia.
  rewrite (Z.mul_comm (Zpos d) (Zpos b)).
  apply Z.quot_le_mono; lia.
Qed.


(** A rational [k * 2^e] with a significand [k] of at most 53 bits is a
    binary64 value: rounding leaves it unchanged. *)
Lemma round_pos_exact (k e : Z) :
  (0 < k < 2 ^ prec)%Z -> (emin <= e)%Z ->
  round_pos (inject_Z k * 2 ^ e) == inject_Z k * 2 ^ e.
Proof.
  intros Hk He. set (x := inject_Z k * 2 ^ e).
  assert (Hx : 0 < x).
  { unfold x. apply Qmult_lt_0_compat; [| apply pow2_pos].
    change 0 with (inject_Z 0). rewrite <- Zlt_Qlt. lia. }
  assert (Hc : (cexp x <= e)%Z).
  { destruct (ilog2_spec x Hx) as [Hlo _].
    assert (Hlt : 2 ^ ilog2 x < 2 ^ (prec + e)).
    { eapply Qle_lt_trans; [exact Hlo |]. unfold x. rewrite pow2_add.
      apply Qmult_lt_compat_r; [apply pow2_pos |].
      rewrite <- (pow2_inject prec) by (unfold prec; lia).
      rewrite <- Zlt_Qlt. lia. }
    apply pow2_lt_inv in Hlt. unfold cexp. lia. }
  rewrite round_pos_value. fold x.
  assert (Hq : x / 2 ^ cexp x == inject_Z (k * 2 ^ (e - cexp x))).
  { rewrite inject_Z_mult, pow2_inject by lia.
    unfold x. replace e with ((e - cexp (inject_Z k * 2 ^ e)) + cexp (inject_Z k * 2 ^ e))%Z at 1 by lia.
    fold x. rewrite pow2_add. field.
    intros H0. pose proof (pow2_pos (cexp x)) as Hp. rewrite H0 in Hp. discriminate Hp. }
  rewrite (rne_eq _ _ Hq), inject_Z_mult, pow2_inject by lia.
  rewrite <- Qmult_assoc, <- pow2_add.
  replace (e - cexp x + cexp x)%Z with e by lia. reflexivity.
Qed.

Lemma round_exact (k e : Z) :
  (- 2 ^ prec < k < 2 ^ prec)%Z -> (emin <= e)%Z ->
  round (inject_Z k * 2 ^ e) == inject_Z k * 2 ^ e.
Proof.
  intros Hk He. unfold round.
  pose proof (pow2_pos e) as Hp.
  destruct (Qcompare_spec (inject_Z k * 2 ^ e) 0) as [H0 | Hneg | Hpos].
  - rewrite H0. reflexivity.
  - assert (Hk' : (k < 0)%Z).
    { destruct (Z.ltb_spec k 0) as [L | G]; [exact L | exfalso].
      assert (0 <= inject_Z k * 2 ^ e); [| lra].
      apply Qmult_le_0_compat; [| lra].
      change 0 with (inject_Z 0). rewrite <- Zle_Qle. exact G. }
    assert (E : - (inject_Z k * 2 ^ e) == inject_Z (- k) * 2 ^ e)
      by (rewrite inject_Z_opp; ring).
    assert (R : round_pos (- (inject_Z k * 2 ^ e)) == round_pos (inject_Z (- k) * 2 ^ e)).
    { apply Qle_antisym; apply round_pos_le; try lra. }
    rewrite R, round_pos_exact by lia. rewrite inject_Z_opp. ring.
  - assert (Hk' : (0 < k)%Z).
    { destruct (Z.ltb_spec 0 k) as [L | G]; [exact L | exfalso].
      assert (inject_Z k * 2 ^ e <= 0); [| lra].
      assert (inject_Z k <= 0) by (change 0 with (inject_Z 0); rewrite <- Zle_Qle; exact G).
      nra. }
    apply round_pos_exact; lia.
Qed.

Lemma round_int (z : Z) : (- 2 ^ prec < z < 2 ^ prec)%Z -> round (inject_Z z) == inject_Z z.
Proof.
  intros Hz. pose proof (round_exact z 0 Hz ltac:(unfold emin; lia)) as H.
  assert (E : inject_Z z * 2 ^ 0 == inject_Z z) by (change (2 ^ 0) with 1; ring).
  assert (R : round (inject_Z z) == round (inject_Z z * 2 ^ 0)).
  { apply Qle_antisym; apply round_le; rewrite E; apply Qle_refl. }
  rewrite R, H. exact E.
Qed.

Lemma to_int_inject (z : Z) : to_int (inject_Z z) = z.
Proof. unfold to_int. simpl. apply Z.quot_1_r. Qed.

End Float64Facts.

(** ** [Hours] and the days left grow with the duration *)

Module TimeFacts.

Import Float64 Float64Facts.

Lemma of_int_le (a b : Z) : (a <= b)%Z -> (of_int a <= of_int b)%Q.
Proof. intros H. apply round_le. rewrite <- Zle_Qle. exact H. Qed.

Lemma div_le (x y c : Q) : (0 < c)%Q -> (x <= y)%Q -> (div x c <= div y c)%Q.
Proof.
  intros Hc H. apply round_le. unfold Qdiv.
  apply Qmult_le_compat_r; [exact H |]. apply Qlt_le_weak, Qinv_lt_0_compat, Hc.
Qed.

Lemma hour_fraction_le (a b : Z) : (a <= b)%Z -> (hour_fraction a <= hour_fraction b)%Q.
Proof.
  intros H. apply div_le; [| apply of_int_le, H].
  unfold Qlt. vm_compute. reflexivity.
Qed.

Lemma hour_fraction_0 : (hour_fraction 0 == 0)%Q.
Proof. unfold Qeq. vm_compute. reflexivity. Qed.

Lemma hour_fraction_Hour : (hour_fraction Hour == 1)%Q.
Proof. unfold Qeq. vm_compute. reflexivity. Qed.

Lemma hour_fraction_opp_Hour : (hour_fraction (- Hour) == - (1))%Q.
Proof. unfold Qeq. vm_compute. reflexivity. Qed.

Lemma Hours_unfold (d : Duration) :
  Hours d = add (of_int (Z.quot d Hour)) (hour_fraction (Z.rem d Hour)).
Proof. reflexivity. Qed.

Lemma Hour_value : Hour = 3600000000000.
Proof. reflexivity. Qed.

Lemma Duration_range :
  minDuration = -9223372036854775808 /\ maxDuration = 9223372036854775807.
Proof. split; reflexivity. Qed.

Lemma of_int_hour (d : Duration) :
  minDuration <= d <= maxDuration ->
  (of_int (Z.quot d Hour) == inject_Z (Z.quot d Hour))%Q.
Proof.
  intros Hd. apply round_int. rewrite Hour_value.
  destruct Duration_range as [Emin Emax]. rewrite Emin, Emax in Hd.
  assert (H1 : Z.quot d 3600000000000 <= Z.quot 9223372036854775807 3600000000000)
    by (apply Z.quot_le_mono; lia).
  assert (H2 : Z.quot (-9223372036854775808) 3600000000000 <= Z.quot d 3600000000000)
    by (apply Z.quot_le_mono; lia).
  change (Z.quot 9223372036854775807 3600000000000) with 2562047 in H1.
  change (Z.quot (-9223372036854775808) 3600000000000) with (- 2562047) in H2.
  change (2 ^ prec) with 9007199254740992. lia.
Qed.

Lemma Hours_le (d1 d2 : Duration) :
  minDuration <= d1 -> d2 <= maxDuration -> d1 <= d2 -> (Hours d1 <= Hours d2)%Q.
Proof.
  intros Hlo Hhi Hle. rewrite !Hours_unfold. apply round_le.
  rewrite !of_int_hour by lia.
  pose proof (Z.quot_rem' d1 Hour) as E1. pose proof (Z.quot_rem' d2 Hour) as E2.
  pose proof (Z.quot_le_mono d1 d2 Hour ltac:(rewrite Hour_value; lia) Hle) as Hq.
  set (h1 := Z.quot d1 Hour) in *. set (h2 := Z.quot d2 Hour) in *.
  set (n1 := Z.rem d1 Hour) in *. set (n2 := Z.rem d2 Hour) in *.
  assert (B : forall d, - Hour < Z.rem d Hour < Hour /\
                        (d <= 0 -> Z.rem d Hour <= 0) /\ (0 <= d -> 0 <= Z.rem d Hour)).
  { intros d. rewrite Hour_value.
    assert (Hp : 0 <= d -> 0 <= Z.rem d 3600000000000 < 3600000000000)
      by (intros; apply Z.rem_bound_pos; lia).
    assert (Hn : d <= 0 -> - 3600000000000 < Z.rem d 3600000000000 <= 0)
      by (intros Hd; pose proof (Z.rem_bound_pos_neg d 3600000000000 ltac:(lia) Hd); lia).
    lia. }
  pose proof (B d1) as B1. pose proof (B d2) as B2. fold n1 in B1. fold n2 in B2.
  clear B.
  destruct (Z.eq_dec h1 h2) as [E | NE].
  - rewrite E. apply Qplus_le_r. apply hour_fraction_le. rewrite Hour_value in *. lia.
  - assert (Hs : (inject_Z h1 + 1 <= inject_Z h2)%Q).
    { change 1%Q with (inject_Z 1). rewrite <- inject_Z_plus, <- Zle_Qle. lia. }
    destruct (Z.le_gt_cases 0 d2) as [P | N].
    + pose proof (hour_fraction_le n1 Hour ltac:(lia)) as F1.
      pose proof (hour_fraction_le 0 n2 ltac:(lia)) as F2.
      rewrite hour_fraction_Hour in F1. rewrite hour_fraction_0 in F2. lra.
    + pose proof (hour_fraction_le n1 0 ltac:(lia)) as F1.
      pose proof (hour_fraction_le (- Hour) n2 ltac:(lia)) as F2.
      rewrite hour_fraction_0 in F1. rewrite hour_fraction_opp_Hour in F2. lra.
Qed.

Lemma days_of_le (d1 d2 : Duration) :
  minDuration <= d1 -> d2 <= maxDuration -> d1 <= d2 -> days_of d1 <= days_of d2.
Proof.
  intros Hlo Hhi Hle. unfold days_of. apply to_int_le. apply div_le.
  - unfold Qlt. vm_compute. reflexivity.
  - apply Hours_le; assumption.
Qed.

(** A duration between two durations of [N] days is one of [N] days. *)
Lemma days_of_between (lo hi d N : Z) :
  minDuration <= lo -> hi <= maxDuration -> lo <= d <= hi ->
  days_of lo = N -> days_of hi = N -> days_of d = N.
Proof.
  intros Hlo Hhi Hd El Eh.
  pose proof (days_of_le lo d Hlo ltac:(lia) ltac:(lia)) as H1.
  pose proof (days_of_le d hi ltac:(lia) Hhi ltac:(lia)) as H2.
  lia.
Qed.

End TimeFacts.

(** ** Where the days left are the exact quotient *)

Module DaysFacts.

Import Float64 Float64Facts TimeFacts.

Lemma round_eq (x y : Q) : (x == y)%Q -> (round x == round y)%Q.
Proof. intros H. apply Qle_antisym; apply round_le; rewrite H; apply Qle_refl. Qed.

Lemma to_int_eq (x y : Q) : (x == y)%Q -> to_int x = to_int y.
Proof.
  intros H. apply Z.le_antisymm; apply to_int_le; rewrite H; apply Qle_refl.
Qed.

Lemma Day_value : 24 * Hour = 86400000000000.
Proof. reflexivity. Qed.

(** Every day below 4096 hours, checked at its first and last nanosecond. *)
Lemma days_table_pos :
  forallb (fun n => let N := Z.of_nat n in
             (days_of (N * 86400000000000) =? N) &&
             (days_of (Z.min ((N + 1) * 86400000000000 - 1) (4096 * 3600000000000 - 1)) =? N))
          (seq 0 171) = true.
Proof. vm_compute. reflexivity. Qed.

Lemma days_table_neg :
  forallb (fun n => let N := Z.of_nat n in
             (days_of (- (N * 86400000000000)) =? - N) &&
             (days_of (- Z.min ((N + 1) * 86400000000000 - 1) (4096 * 3600000000000 - 1)) =? - N))
          (seq 0 171) = true.
Proof. vm_compute. reflexivity. Qed.

Lemma days_of_near_pos (d : Duration) :
  0 <= d < 4096 * Hour -> days_of d = d / (24 * Hour).
Proof.
  intros Hd. rewrite Day_value. rewrite Hour_value in Hd.
  set (N := d / 86400000000000).
  assert (HN : 0 <= N <= 170).
  { unfold N. split; [apply Z.div_pos; lia |].
    apply Z.lt_succ_r. apply Z.div_lt_upper_bound; lia. }
  pose proof (Z.div_mod d 86400000000000 ltac:(lia)) as Ed.
  pose proof (Z.mod_pos_bound d 86400000000000 ltac:(lia)) as Hm. fold N in Ed.
  pose proof (proj1 (forallb_forall _ _) days_table_pos (Z.to_nat N)) as H.
  specialize (H ltac:(apply in_seq; lia)). cbv beta zeta in H.
  rewrite Z2Nat.id in H by lia.
  apply andb_prop in H. destruct H as [H1 H2].
  apply Z.eqb_eq in H1, H2.
  destruct Duration_range as [Emin Emax].
  apply (days_of_between (N * 86400000000000)
           (Z.min ((N + 1) * 86400000000000 - 1) (4096 * 3600000000000 - 1)) d N);
    [rewrite Emin; lia | rewrite Emax; lia | lia | exact H1 | exact H2].
Qed.

Lemma days_of_near_neg (d : Duration) :
  - (4096 * Hour) < d <= 0 -> days_of d = - ((- d) / (24 * Hour)).
Proof.
  intros Hd. rewrite Day_value. rewrite Hour_value in Hd.
  set (N := (- d) / 86400000000000).
  assert (HN : 0 <= N <= 170).
  { unfold N. split; [apply Z.div_pos; lia |].
    apply Z.lt_succ_r. apply Z.div_lt_upper_bound; lia. }
  pose proof (Z.div_mod (- d) 86400000000000 ltac:(lia)) as Ed.
  pose proof (Z.mod_pos_bound (- d) 86400000000000 ltac:(lia)) as Hm. fold N in Ed.
  pose proof (proj1 (forallb_forall _ _) days_table_neg (Z.to_nat N)) as H.
  specialize (H ltac:(apply in_seq; lia)). cbv beta zeta in H.
  rewrite Z2Nat.id in H by lia.
  apply andb_prop in H. destruct H as [H1 H2].
  apply Z.eqb_eq in H1, H2.
  destruct Duration_range as [Emin Emax].
  apply (days_of_between
           (- Z.min ((N + 1) * 86400000000000 - 1) (4096 * 3600000000000 - 1))
           (- (N * 86400000000000)) d (- N));
    [rewrite Emin; lia | rewrite Emax; lia | lia | exact H2 | exact H1].
Qed.

Lemma days_of_near (d : Duration) :
  - (4096 * Hour) < d < 4096 * Hour -> days_of d = Z.quot d (24 * Hour).
Proof.
  intros Hd. destruct (Z.le_gt_cases 0 d) as [P | N].
  - rewrite days_of_near_pos by lia. symmetry. apply Z.quot_div_nonneg; [exact P |].
    rewrite Day_value. lia.
  - rewrite days_of_near_neg by lia.
    rewrite <- (Z.opp_involutive d) at 2. rewrite Z.quot_opp_l by (rewrite Day_value; lia).
    f_equal. symmetry. apply Z.quot_div_nonneg; [lia |]. rewrite Day_value. lia.
Qed.

Lemma Hours_whole (h : Z) :
  minDuration <= h * Hour <= maxDuration -> (Hours (h * Hour)%Z == inject_Z h)%Q.
Proof.
  intros Hd. rewrite Hours_unfold.
  pose proof (of_int_hour (h * Hour) Hd) as Eh.
  rewrite Z.quot_mul in * by (rewrite Hour_value; lia).
  rewrite Z.rem_mul by (rewrite Hour_value; lia).
  unfold add. rewrite (round_eq (of_int h + hour_fraction 0) (inject_Z h)).
  - exact Eh.
  - rewrite Eh, hour_fraction_0. ring.
Qed.

Lemma quot_32_pos (N : Z) : 0 <= N -> Z.quot (32 * N + 31) 32 = N.
Proof. intros H. symmetry. apply (Z.quot_unique _ _ _ 31); lia. Qed.

Lemma Qmake_div_24 (h : Z) : (inject_Z h / 24 == (h # 24))%Q.
Proof. symmetry. apply (Qmake_Qdiv h 24). Qed.

Lemma round_fifths (k : Z) :
  - 2 ^ 53 < k < 2 ^ 53 -> (round (k # 32) == (k # 32))%Q.
Proof.
  intros Hk. assert (E : ((k # 32) == inject_Z k * 2 ^ (-5))%Q).
  { change (2 ^ (-5))%Q with (1 # 32)%Q. unfold Qeq, Qmult, inject_Z. cbn [Qnum Qden]. lia. }
  rewrite (round_eq _ _ E), round_exact; [symmetry; exact E | exact Hk |].
  unfold emin. lia.
Qed.

(** A whole number of hours: the quotient by 24 is exact. *)
Lemma days_of_whole_hours (h : Z) :
  minDuration <= h * Hour <= maxDuration -> days_of (h * Hour) = Z.quot h 24.
Proof.
  intros Hd. unfold days_of, div.
  assert (Ev : (Hours (h * Hour)%Z / of_int 24 == (h # 24))%Q).
  { rewrite (Hours_whole h Hd). change (of_int 24) with 24%Q. apply Qmake_div_24. }
  rewrite (to_int_eq _ _ (round_eq _ _ Ev)).
  assert (Hh : - 2562048 < h < 2562048).
  { destruct Duration_range as [Emin Emax]. rewrite Emin, Emax, Hour_value in Hd. lia. }
  pose proof (Z.quot_rem' h 24) as Eq.
  assert (Hp : 0 <= h -> 0 <= Z.rem h 24 < 24) by (intros; apply Z.rem_bound_pos; lia).
  assert (Hn : h <= 0 -> - 24 < Z.rem h 24 <= 0)
    by (intros Hle; pose proof (Z.rem_bound_pos_neg h 24 ltac:(lia) Hle); lia).
  set (N := Z.quot h 24) in *.
  change (2 ^ 53) with 9007199254740992 in *.
  destruct (Z.le_gt_cases 0 h) as [P | G].
  - specialize (Hp P).
    assert (L : (inject_Z N <= round (h # 24))%Q).
    { rewrite <- (round_int N) by (unfold prec; change (2 ^ 53) with 9007199254740992; lia).
      apply round_le. unfold Qle, inject_Z. cbn [Qnum Qden]. lia. }
    assert (U : (round (h # 24) <= ((32 * N + 31) # 32))%Q).
    { rewrite <- (round_fifths (32 * N + 31)) by (change (2 ^ 53) with 9007199254740992; lia).
      apply round_le. unfold Qle, inject_Z. cbn [Qnum Qden]. lia. }
    apply to_int_le in L, U. rewrite to_int_inject in L.
    unfold to_int at 2 in U. cbn [Qnum Qden] in U. rewrite quot_32_pos in U by lia. lia.
  - specialize (Hn ltac:(lia)).
    assert (U : (round (h # 24) <= inject_Z N)%Q).
    { rewrite <- (round_int N) by (unfold prec; change (2 ^ 53) with 9007199254740992; lia).
      apply round_le. unfold Qle, inject_Z. cbn [Qnum Qden]. lia. }
    assert (L : (((- (32 * (- N) + 31)) # 32) <= round (h # 24))%Q).
    { rewrite <- (round_fifths (- (32 * (- N) + 31)))
        by (change (2 ^ 53) with 9007199254740992; lia).
      apply round_le. unfold Qle, inject_Z. cbn [Qnum Qden]. lia. }
    apply to_int_le in L, U. rewrite to_int_inject in U.
    unfold to_int at 1 in L. cbn [Qnum Qden] in L.
    rewrite Z.quot_opp_l, quot_32_pos in L by lia. lia.
Qed.

End DaysFacts.

(** ** The alert lines and the classification of a probed site *)

Lemma append_empty_r (s : string) : String.append s "" = s.
Proof. induction s as [| c s IH]; simpl; [reflexivity | rewrite IH; reflexivity]. Qed.

Lemma Sprintf_failed (site : string) :
  Sprintf "❗ 检测失败: %s" [ArgS site] = line_failed site.
Proof.
  unfold line_failed. rewrite <- (append_empty_r site) at 2. reflexivity.
Qed.

Lemma Sprintf_soon (site : string) (D : Z) (date : string) :
  Sprintf "⚠️ 证书即将过期: %s 还有 %d 天 (到期日: %s)" [ArgS site; ArgD D; ArgS date]
  = String.concat "" ["⚠️ 证书即将过期: "; site; " 还有 "; itoa D; " 天 (到期日: "; date; ")"]%string.
Proof. reflexivity. Qed.

Lemma Sprintf_expired (site date : string) :
  Sprintf "❗ 证书已过期: %s (到期日: %s)" [ArgS site; ArgS date]
  = String.concat "" ["❗ 证书已过期: "; site; " (到期日: "; date; ")"]%string.
Proof. reflexivity. Qed.

Lemma Sprintf_clear (date name : string) (count : nat) :
  Sprintf "✅ [%s] 组 %s 的证书监控正常，共 %d 个"
          [ArgS date; ArgS name; ArgD (Z.of_nat count)]
  = report_clear date name count.
Proof. reflexivity. Qed.

Lemma Sprintf_problems (date name : string) (lines : list string) :
  Sprintf (String.append "🚨 [%s] 组 %s 的证书监控发现 %d 个问题:" (String.append nl "%s"))
          [ArgS date; ArgS name; ArgD (Z.of_nat (List.length lines));
           ArgS (strings_Join lines nl)]
  = report_problems date name lines.
Proof.
  unfold report_problems. rewrite <- (append_empty_r (String.concat nl lines)).
  reflexivity.
Qed.

Lemma app_one_neq {A : Type} (l : list A) (x : A) : l ++ [x] <> l.
Proof.
  intros H. apply (f_equal (@List.length A)) in H.
  rewrite length_app in H. simpl in H. lia.
Qed.

Lemma app_one_inj {A : Type} (l : list A) (x y : A) : l ++ [x] = l ++ [y] -> x = y.
Proof. intros H. apply app_inv_head in H. injection H as H. exact H. Qed.

Lemma line_soon_neq_expired (world : World) (site : string) (D : Z) (expire : Time) :
  line_soon world site D expire <> line_expired world site expire.
Proof. unfold line_soon, line_expired. simpl. discriminate. Qed.

(** The code's three branches, by the days left. *)
Lemma main_classify_cases (world : World) (group : WatchGroup) (site : string)
    (expire : Time) (D : Z) (alerts : list string) :
  main_classify world group site expire D alerts =
  if D <? 0 then
    if D <=? DayBeforeExpiration group
    then alerts ++ [line_expired world site expire]
    else alerts ++ [line_expired world site expire]
  else if D <=? DayBeforeExpiration group
    then alerts ++ [line_soon world site D expire]
    else alerts.
Proof.
  unfold main_classify. rewrite Z.geb_leb, Sprintf_soon, Sprintf_expired.
  fold (line_soon world site D expire). fold (line_expired world site expire).
  destruct (Z.ltb_spec D 0), (Z.leb_spec D (DayBeforeExpiration group)),
           (Z.leb_spec 0 D); simpl; try reflexivity; lia.
Qed.

(** C1. For a redline R >= 0 and any days left D, what the code adds to the
    alerts of a successfully probed site splits the integers in three:
    nothing (Healthy) iff D > R, the "expiring soon" line that shows D iff
    0 <= D <= R, the "expired" line iff D < 0; the spec's classification
    agrees, and exactly one of the three cases applies. *)
Theorem main_classify_partition (world : World) (group : WatchGroup) (site : string)
    (expire : Time) (D : Z) (alerts : list string) :
  0 <= DayBeforeExpiration group ->
  let R := DayBeforeExpiration group in
  let result := main_classify world group site expire D alerts in
  (result = alerts <-> R < D) /\
  (result = alerts ++ [line_soon world site D expire] <-> 0 <= D <= R) /\
  (result = alerts ++ [line_expired world site expire] <-> D < 0) /\
  (classify_days R D = Healthy <-> R < D) /\
  (classify_days R D = ExpiringSoon D <-> 0 <= D <= R) /\
  (classify_days R D = Expired D <-> D < 0) /\
  (R < D /\ ~ 0 <= D <= R /\ ~ D < 0 \/
   ~ R < D /\ 0 <= D <= R /\ ~ D < 0 \/
   ~ R < D /\ ~ 0 <= D <= R /\ D < 0).
Proof.
  intros HR R result. unfold result, classify_days. rewrite main_classify_cases. fold R.
  pose proof (@app_one_neq string alerts) as Hne.
  pose proof (line_soon_neq_expired world site D expire) as Hse.
  destruct (Z.ltb_spec D 0) as [Hneg | Hpos], (Z.leb_spec D R) as [Hle | Hgt];
    repeat split; intros; try lia; try reflexivity; try discriminate;
    try (exfalso; eapply Hne; eassumption);
    try (exfalso; eapply Hne; symmetry; eassumption);
    try (exfalso; apply Hse; eapply app_one_inj; eassumption);
    try (exfalso; apply Hse; symmetry; eapply app_one_inj; eassumption).
Qed.

Lemma main_classify_partition_witness :
  0 <= DayBeforeExpiration Scenario.prod /\
  (main_classify Scenario.world Scenario.prod "a.example" (Scenario.days_after 4) 4 []
   = [line_soon Scenario.world "a.example" 4 (Scenario.days_after 4)] <-> 0 <= 4 <= 7).
Proof.
  split; [simpl; lia |].
  apply (main_classify_partition Scenario.world Scenario.prod "a.example"
           (Scenario.days_after 4) 4 []). simpl. lia.
Defined.

(** ** The days left *)

Lemma daysLeft_days_of (expire today : Time) :
  daysLeft expire today = days_of (Sub expire today).
Proof. reflexivity. Qed.

Lemma Sub_in_range (expire today : Time) :
  minDuration <= since expire today <= maxDuration ->
  Sub expire today = since expire today.
Proof.
  intros H. unfold Sub.
  destruct (Z.ltb_spec (since expire today) minDuration); [lia |].
  destruct (Z.ltb_spec maxDuration (since expire today)); [lia | reflexivity].
Qed.

(** The model and the Standard Library's IEEE 754 operations agree on the
    inputs of the examples below. *)
Example Float64_agrees_with_SpecFloat :
  forallb (fun d =>
             Qeq_bool (Float64.div (Hours d) (Float64.of_int 24))
                      (Float64Ref.to_Q (Float64Ref.days d)))
          [200 * (24 * Hour) - 1; 200 * (24 * Hour) - 2; - (200 * (24 * Hour)) + 1;
           170 * (24 * Hour) - 1; 4 * (24 * Hour); - (9 * (24 * Hour));
           - (24 * Hour) + 1; -1; 0; 1; 169 * Hour; maxDuration; minDuration;
           12345678912345678] = true.
Proof. vm_compute. reflexivity. Qed.

(** An expiry beyond the range of [Duration] (here the year 9999, the
    "no expiry" date of RFC 5280) saturates: 106751 days are left. *)
Example daysLeft_saturates :
  let expire := {| sec := 253402300799; nsec := 0 |} in
  daysLeft expire Scenario.new_year = 106751 /\
  exact_days expire Scenario.new_year = 2913173.
Proof. vm_compute. split; reflexivity. Qed.

(** C2, as stated, fails.  With today = 2024-01-01T00:00:00.000000001Z and
    an expiry at 2024-07-19T00:00:00Z, one nanosecond short of 200 days
    later, the exact quotient is 199 days, but [Hours()] rounds the 4799
    hours and 3599999999999 ns to the float64 4800.0 and 200 days are left. *)
Lemma daysLeft_not_exact_quotient :
  let expire := {| sec := 1721347200; nsec := 0 |} in
  let today := {| sec := 1704067200; nsec := 1 |} in
  since expire today = 200 * (24 * Hour) - 1 /\
  exact_days expire today = 199 /\
  daysLeft expire today = 200 /\
  daysLeft expire today <> exact_days expire today.
Proof. vm_compute. repeat split; try reflexivity. discriminate. Qed.

(** C7. A certificate that expired less than 24 hours ago has 0 days left:
    for every redline >= 0 the site is classified [ExpiringSoon 0] and
    gets the "expiring soon" line, not the "expired" one. *)
Theorem expired_today_is_expiring_soon (world : World) (group : WatchGroup)
    (site : string) (expire today : Time) (alerts : list string) :
  - (24 * Hour) < since expire today < 0 ->
  0 <= DayBeforeExpiration group ->
  daysLeft expire today = 0 /\
  classify (DayBeforeExpiration group) today (inl expire) = ExpiringSoon 0 /\
  main_classify world group site expire (daysLeft expire today) alerts
  = alerts ++ [line_soon world site 0 expire] /\
  main_classify world group site expire (daysLeft expire today) alerts
  <> alerts ++ [line_expired world site expire].
Proof.
  intros Hd HR.
  assert (E : daysLeft expire today = 0).
  { rewrite TimeFacts.Hour_value in Hd.
    rewrite daysLeft_days_of, Sub_in_range
      by (destruct TimeFacts.Duration_range as [Emin Emax]; rewrite Emin, Emax; lia).
    apply (TimeFacts.days_of_between (- (86400000000000 - 1)) 0);
      [ destruct TimeFacts.Duration_range as [Emin _]; rewrite Emin; lia
      | destruct TimeFacts.Duration_range as [_ Emax]; rewrite Emax; lia
      | lia
      | vm_compute; reflexivity
      | vm_compute; reflexivity ]. }
  assert (M : main_classify world group site expire (daysLeft expire today) alerts
              = alerts ++ [line_soon world site 0 expire]).
  { rewrite E, main_classify_cases. simpl (0 <? 0).
    destruct (Z.leb_spec 0 (DayBeforeExpiration group)); [reflexivity | lia]. }
  repeat split.
  - exact E.
  - unfold classify. rewrite E. unfold classify_days. simpl (0 <? 0).
    destruct (Z.leb_spec 0 (DayBeforeExpiration group)); [reflexivity | lia].
  - exact M.
  - rewrite M. intros H. apply app_one_inj in H.
    exact (line_soon_neq_expired world site 0 expire H).
Qed.

Lemma expired_today_is_expiring_soon_witness :
  let expire := {| sec := 1704067200 - 3600; nsec := 0 |} in
  daysLeft expire Scenario.new_year = 0 /\
  main_classify Scenario.world Scenario.prod "a.example" expire
                (daysLeft expire Scenario.new_year) []
  = [line_soon Scenario.world "a.example" 0 expire].
Proof.
  intros expire.
  destruct (expired_today_is_expiring_soon Scenario.world Scenario.prod "a.example"
              expire Scenario.new_year []) as (E & _ & M & _).
  - vm_compute. split; reflexivity.
  - vm_compute. discriminate.
  - split; [exact E | exact M].
Defined.

(** ** Runs of the prober and of the notifier *)

Lemma new_events_app {A : Type} (t evs : Trace) (a : A) : new_events t (a, t ++ evs) = evs.
Proof.
  unfold new_events. simpl. rewrite skipn_app, skipn_all, Nat.sub_diag. reflexivity.
Qed.

Lemma dials_app (a b : Trace) : dials (a ++ b) = dials a ++ dials b.
Proof. apply flat_map_app. Qed.

Lemma dialers_app (a b : Trace) : dialers (a ++ b) = dialers a ++ dialers b.
Proof. apply flat_map_app. Qed.

Lemma nows_app (a b : Trace) : nows (a ++ b) = nows a ++ nows b.
Proof. apply flat_map_app. Qed.

Lemma sends_app (a b : Trace) : sends (a ++ b) = sends a ++ sends b.
Proof. apply flat_map_app. Qed.

Lemma posts_app (a b : Trace) : posts (a ++ b) = posts a ++ posts b.
Proof. apply flat_map_app. Qed.

Lemma host_with_port (host : string) :
  (if negb (strings_Contains host ":") then String.append host ":443" else host)
  = dial_addr host.
Proof. unfold dial_addr. destruct (strings_Contains host ":"); reflexivity. Qed.

(** The prober dials once and returns what [probe_of] says of the answer;
    an established connection is closed. *)
Lemma GetExpirationDate_run (world : World) (host : string) (t : Trace) :
  let answer := network_dial world t the_dialer "tcp" (dial_addr host) the_config in
  GetExpirationDate world host t =
  (probe_of answer,
   t ++ EvDial the_dialer "tcp" (dial_addr host) the_config answer
        :: match answer with inl _ => [EvConnClose] | inr _ => [] end).
Proof.
  intros answer.
  unfold GetExpirationDate, tls_Dial, tls_DialWithDialer, ask, bind, emit, ret.
  rewrite host_with_port. fold the_dialer the_config. fold answer.
  destruct answer as [conn | err].
  - unfold probe_of. destruct (PeerCertificates conn) as [| leaf rest];
      cbn [List.length Z.of_nat Z.eqb nth]; rewrite <- app_assoc; reflexivity.
  - reflexivity.
Qed.

(** The notifier is entered once; it dials nothing, does not read the
    clock and sends at most one request, with a 10 second timeout. *)
Lemma SendWxwork_run (world : World) (g : WatchGroup) (msg : string) (level : Level)
    (t : Trace) :
  exists evs : Trace,
    snd (SendWxwork world g msg level t) = t ++ evs /\
    sends evs = [(g, msg, level)] /\ dials evs = [] /\ nows evs = [] /\
    Forall (fun p => Client_Timeout (fst p) = 10 * Second) (posts evs) /\
    (List.length (posts evs) <= 1)%nat.
Proof.
  unfold SendWxwork, slog_Warn, slog_Info, slog_Error, Client_Do, bind, emit, ask, ret.
  destruct (String.eqb (WxworkToken g) "").
  - eexists. cbv beta iota zeta. rewrite <- !app_assoc. cbn [app snd].
    split; [reflexivity |]. cbn. repeat split; auto.
  - destruct (http_NewRequest world _ _ _) as [req | err].
    + cbv beta iota zeta.
      match goal with
      | |- context [network_http world ?t0 ?c ?r] => destruct (network_http world t0 c r) as [resp | err]
      end.
      * destruct (negb (StatusCode resp =? StatusOK)); eexists;
          cbv beta iota zeta; rewrite <- !app_assoc; cbn [app snd];
          (split; [reflexivity |]); cbn; repeat split; auto.
      * eexists. cbv beta iota zeta. rewrite <- !app_assoc. cbn [app snd].
        split; [reflexivity |]. cbn. repeat split; auto.
    + eexists. cbv beta iota zeta. cbn [snd].
      split; [reflexivity |]. cbn. repeat split; auto.
Qed.

(** ** Runs of the evaluator *)

Lemma main_classify_line (world : World) (g : WatchGroup) (site : string)
    (expire today : Time) (alerts : list string) :
  main_classify world g site expire (daysLeft expire today) alerts
  = alerts ++ alert_line world site (inl expire)
                (classify (DayBeforeExpiration g) today (inl expire)).
Proof.
  rewrite main_classify_cases. unfold classify, classify_days, alert_line.
  destruct (daysLeft expire today <? 0),
           (daysLeft expire today <=? DayBeforeExpiration g);
    rewrite ?app_nil_r; reflexivity.
Qed.

(** One site: one dial, and the alert line of its classification. *)
Lemma main_site_run (world : World) (g : WatchGroup) (today : Time)
    (alerts : list string) (site : string) (t : Trace) :
  exists (answer : tls_Conn + error) (evs : Trace),
    answer = network_dial world
               (t ++ [EvLog LevelInfo "checking site:" [("site"%string, site)]])
                          the_dialer "tcp" (dial_addr site) the_config /\
    main_site world g today alerts site t
    = (alerts ++ alert_line world site (probe_of answer)
                   (classify (DayBeforeExpiration g) today (probe_of answer)),
       t ++ evs) /\
    dials evs = [(dial_addr site, answer)] /\ dialers evs = [the_dialer] /\
    sends evs = [] /\ nows evs = [] /\ posts evs = [].
Proof.
  unfold main_site, slog_Info, slog_Error, bind, emit, ret.
  rewrite GetExpirationDate_run. cbv beta iota zeta.
  set (answer := network_dial world _ _ _ _ _). exists answer.
  destruct (probe_of answer) as [expire | err] eqn:Ep.
  - eexists. split; [reflexivity |].
    rewrite main_classify_line, <- !app_assoc. split; [reflexivity |].
    destruct answer; cbn; repeat split; reflexivity.
  - eexists. split; [reflexivity |].
    rewrite Sprintf_failed, <- !app_assoc. split; [reflexivity |].
    destruct answer; cbn; repeat split; reflexivity.
Qed.

(** The loop over the sites: every site is dialled, in order, and the
    alerts grow by the alert lines of the sites, in order. *)
Lemma main_sites_run (world : World) (g : WatchGroup) (today : Time)
    (sites : list string) :
  forall (alerts : list string) (t : Trace),
  exists evs : Trace,
    main_sites world g today sites alerts t
    = (alerts ++ sites_alerts world (DayBeforeExpiration g) today sites
                   (map snd (dials evs)),
       t ++ evs) /\
    map fst (dials evs) = map dial_addr sites /\
    Forall (fun d => d = the_dialer) (dialers evs) /\
    sends evs = [] /\ nows evs = [] /\ posts evs = [].
Proof.
  induction sites as [| site rest IH]; intros alerts t.
  - exists []. cbn. rewrite !app_nil_r. repeat split; auto.
  - destruct (main_site_run world g today alerts site t)
      as (answer & evs1 & _ & Hrun & Hd1 & Hdl1 & Hs1 & Hn1 & Hp1).
    cbn [main_sites]. unfold bind. rewrite Hrun.
    destruct (IH (alerts ++ alert_line world site (probe_of answer)
                    (classify (DayBeforeExpiration g) today (probe_of answer)))
                 (t ++ evs1))
      as (evs2 & Hrun2 & Hd2 & Hdl2 & Hs2 & Hn2 & Hp2).
    exists (evs1 ++ evs2). rewrite Hrun2.
    rewrite dials_app, dialers_app, sends_app, nows_app, posts_app.
    rewrite Hd1, Hdl1, Hs1, Hn1, Hp1, Hs2, Hn2, Hp2.
    repeat split.
    + rewrite <- !app_assoc. reflexivity.
    + cbn. rewrite Hd2. reflexivity.
    + constructor; [reflexivity | exact Hdl2].
Qed.

(** The report: the clock is read once and [SendWxwork] is called once. *)
Lemma main_report_run (world : World) (g : WatchGroup) (alerts : list string)
    (t : Trace) :
  exists (now : Time) (evs : Trace),
    main_report world g alerts t = (tt, t ++ evs) /\
    nows evs = [now] /\ dials evs = [] /\ dialers evs = [] /\
    sends evs = [group_report world g now alerts].
Proof.
  unfold main_report, group_report.
  destruct alerts as [| line rest].
  - cbn [List.length Z.of_nat Z.leb Z.compare].
    unfold time_Now, slog_Info, bind, emit, ask, ret. cbv beta iota zeta.
    set (now := clock world _). exists now. rewrite Sprintf_clear.
    match goal with
    | |- context [SendWxwork world g ?m ?l ?t0] =>
        destruct (SendWxwork_run world g m l t0) as (evs & Hrun & Hs & Hd & Hn & _);
        destruct (SendWxwork world g m l t0) as [r t2]
    end.
    cbn [snd] in Hrun. subst t2.
    exists ([EvLog LevelInfo "no alerts to send" []; EvNow now] ++ evs).
    rewrite nows_app, dials_app, dialers_app, sends_app, Hs, Hd, Hn.
    split; [rewrite <- !app_assoc; reflexivity |].
    repeat split; try reflexivity.
    clear - Hd. induction evs as [| e evs IH]; [reflexivity |].
    destruct e; cbn in *; try discriminate; auto.
  - replace (Z.of_nat (List.length (line :: rest)) <=? 0) with false
      by (symmetry; apply Z.leb_gt; cbn [List.length]; lia).
    unfold time_Now, slog_Info, bind, emit, ask, ret. cbv beta iota zeta.
    set (now := clock world _). exists now. rewrite Sprintf_problems.
    match goal with
    | |- context [SendWxwork world g ?m ?l ?t0] =>
        destruct (SendWxwork_run world g m l t0) as (evs & Hrun & Hs & Hd & Hn & _);
        destruct (SendWxwork world g m l t0) as [r t2]
    end.
    cbn [snd] in Hrun. subst t2.
    exists ([EvLog LevelInfo "sending alerts"
               [("count"%string, itoa (Z.of_nat (List.length (line :: rest))))];
             EvNow now] ++ evs).
    rewrite nows_app, dials_app, dialers_app, sends_app, Hs, Hd, Hn.
    split; [rewrite <- !app_assoc; reflexivity |].
    repeat split; try reflexivity.
    clear - Hd. induction evs as [| e evs IH]; [reflexivity |].
    destruct e; cbn in *; try discriminate; auto.
Qed.

(** One group: the clock is read twice, every site is dialled in order and
    [SendWxwork] is called once, with the report of the group's alerts. *)
Lemma main_group_run (world : World) (g : WatchGroup) (t : Trace) :
  exists (today now : Time) (evs : Trace),
    main_group world g t = (tt, t ++ evs) /\
    nows evs = [today; now] /\
    map fst (dials evs) = map dial_addr (Sites g) /\
    Forall (fun d => d = the_dialer) (dialers evs) /\
    sends evs
    = [group_report world g now (group_alerts world g today (map snd (dials evs)))].
Proof.
  unfold main_group, time_Now, slog_Info, bind at 1 2, emit, ask.
  cbv beta iota zeta.
  set (today := clock world _). exists today.
  set (t1 := (t ++ _) ++ [EvNow today]).
  destruct (main_sites_run world g today (Sites g) [] t1)
    as (evs1 & Hrun & Hd & Hdl & Hs & Hn & Hp).
  unfold bind. rewrite Hrun. cbn [app].
  destruct (main_report_run world g
              (sites_alerts world (DayBeforeExpiration g) today (Sites g)
                 (map snd (dials evs1))) (t1 ++ evs1))
    as (now & evs2 & Hrun2 & Hn2 & Hd2 & Hdl2 & Hs2).
  exists now.
  exists ([EvLog LevelInfo "watching group:" [("name"%string, Name g)]; EvNow today]
          ++ evs1 ++ evs2).
  rewrite Hrun2. unfold t1.
  rewrite !nows_app, !dials_app, !dialers_app, !sends_app.
  rewrite Hn, Hn2, Hd2, Hdl2, Hs, Hs2, !app_nil_r.
  split; [rewrite <- !app_assoc; reflexivity |].
  repeat split; try reflexivity; assumption.
Qed.

(** The sweep: every site of every group is dialled, in order, and
    [SendWxwork] is called once for every group, in order. *)
Lemma main_groups_run (world : World) (groups : list WatchGroup) :
  forall t : Trace,
  exists evs : Trace,
    main_groups world groups t = (tt, t ++ evs) /\
    map fst (dials evs) = flat_map (fun g => map dial_addr (Sites g)) groups /\
    Forall (fun d => d = the_dialer) (dialers evs) /\
    map (fun s => fst (fst s)) (sends evs) = groups.
Proof.
  induction groups as [| g rest IH]; intros t.
  - exists []. cbn. rewrite app_nil_r. repeat split; auto.
  - destruct (main_group_run world g t) as (today & now & evs1 & Hrun & _ & Hd & Hdl & Hs).
    cbn [main_groups]. unfold bind. rewrite Hrun.
    destruct (IH (t ++ evs1)) as (evs2 & Hrun2 & Hd2 & Hdl2 & Hs2).
    exists (evs1 ++ evs2). rewrite Hrun2, dials_app, dialers_app, sends_app.
    rewrite !map_app, Hd, Hd2, Hs, Hs2, Forall_app.
    repeat split; try assumption.
    + rewrite <- app_assoc. reflexivity.
    + unfold group_report. destruct (group_alerts _ _ _ _); reflexivity.
Qed.

(** ** Alert lines and classifications *)

Lemma alert_line_length (world : World) (site : string) (r : Time + error)
    (redline : Z) (today : Time) :
  List.length (alert_line world site r (classify redline today r))
  = if unhealthy (classify redline today r) then 1%nat else 0%nat.
Proof.
  destruct r as [expire | err]; [| reflexivity].
  unfold classify, classify_days.
  destruct (daysLeft expire today <? 0); [reflexivity |].
  destruct (daysLeft expire today <=? redline); reflexivity.
Qed.

Lemma sites_alerts_length (world : World) (redline : Z) (today : Time)
    (sites : list string) :
  forall answers : list (tls_Conn + error),
  List.length answers = List.length sites ->
  List.length (sites_alerts world redline today sites answers)
  = List.length (filter unhealthy
                   (map (fun r => classify redline today (probe_of r)) answers)).
Proof.
  unfold sites_alerts.
  induction sites as [| site rest IH]; intros [| answer answers] Hlen;
    try discriminate; [reflexivity |].
  cbn [map combine flat_map fst snd filter]. rewrite length_app, alert_line_length.
  rewrite IH by (cbn in Hlen; lia).
  destruct (unhealthy _); reflexivity.
Qed.

Lemma filter_unhealthy_nil (classes : list Classification) :
  forallb healthy classes = true -> filter unhealthy classes = [].
Proof.
  induction classes as [| c rest IH]; [reflexivity |].
  cbn. unfold unhealthy. destruct (healthy c); [exact IH | discriminate].
Qed.

Lemma filter_unhealthy_cons (classes : list Classification) :
  existsb unhealthy classes = true -> filter unhealthy classes <> [].
Proof.
  induction classes as [| c rest IH]; [discriminate |].
  cbn. destruct (unhealthy c); [discriminate | exact IH].
Qed.

(** What a run of [main_group] adds to the trace, in the vocabulary of the
    specification. *)
Lemma main_group_events (world : World) (g : WatchGroup) (t : Trace) :
  let evs := new_events t (main_group world g t) in
  let today := first_now evs in
  let answers := map snd (dials evs) in
  exists now : Time,
    List.length answers = List.length (Sites g) /\
    map fst (dials evs) = map dial_addr (Sites g) /\
    sends evs = [group_report world g now (group_alerts world g today answers)].
Proof.
  destruct (main_group_run world g t) as (today & now & evs & Hrun & Hn & Hd & _ & Hs).
  rewrite Hrun, new_events_app. cbv zeta. unfold first_now. rewrite Hn. cbn [hd].
  exists now. repeat split; try assumption.
  rewrite length_map, <- (length_map fst), Hd, length_map. reflexivity.
Qed.

(** C3. A group with at least one site that is not healthy (unreachable,
    expired or expiring soon) is reported with severity Warning; the
    message is the problem report over the alert lines of the group, which
    are as many as the sites that are not healthy and come in the order
    of the site list ([group_alerts] maps over the sites in order). *)
Theorem unhealthy_group_report (world : World) (g : WatchGroup) (t : Trace) :
  let evs := new_events t (main_group world g t) in
  let today := first_now evs in
  let answers := map snd (dials evs) in
  let classes := group_classes g today answers in
  let lines := group_alerts world g today answers in
  existsb unhealthy classes = true ->
  List.length classes = List.length (Sites g) /\
  List.length lines = List.length (filter unhealthy classes) /\
  (0 < List.length lines)%nat /\
  exists date : string,
    sends evs = [(g, report_problems date (Name g) lines, LevelWarn)].
Proof.
  intros evs today answers classes lines Hex.
  destruct (main_group_events world g t) as (now & Hlen & _ & Hs).
  fold evs today answers lines in Hlen, Hs.
  assert (Hcount : List.length lines = List.length (filter unhealthy classes)).
  { unfold lines, group_alerts, classes, group_classes.
    apply sites_alerts_length. exact Hlen. }
  assert (Hpos : (0 < List.length lines)%nat).
  { rewrite Hcount. pose proof (filter_unhealthy_cons classes Hex) as Hne.
    destruct (filter unhealthy classes); [contradiction | cbn; lia]. }
  repeat split; try assumption.
  - unfold classes, group_classes. rewrite length_map. exact Hlen.
  - exists (Format world now "2006-01-02"). rewrite Hs. unfold group_report.
    destruct lines; [cbn in Hpos; lia | reflexivity].
Qed.

Lemma unhealthy_group_report_witness :
  existsb unhealthy
    (group_classes Scenario.prod
       (first_now (new_events [] (main_group Scenario.world Scenario.prod [])))
       (map snd (dials (new_events [] (main_group Scenario.world Scenario.prod [])))))
  = true /\
  exists date : string,
    sends (new_events [] (main_group Scenario.world Scenario.prod []))
    = [(Scenario.prod,
        report_problems date "prod"
          (group_alerts Scenario.world Scenario.prod
             (first_now (new_events [] (main_group Scenario.world Scenario.prod [])))
             (map snd (dials (new_events [] (main_group Scenario.world Scenario.prod []))))),
        LevelWarn)].
Proof.
  split; [vm_compute; reflexivity |].
  apply (unhealthy_group_report Scenario.world Scenario.prod []).
  vm_compute. reflexivity.
Defined.

(** The scenario of the specification: [a.example] expires in 4 days,
    [b.example] refuses the connection; one Warning with the two lines. *)
Example prod_report :
  sends (new_events [] (main_group Scenario.world Scenario.prod []))
  = [(Scenario.prod,
      report_problems "2024-01-01" "prod"
        [line_soon Scenario.world "a.example" 4 (Scenario.days_after 4);
         line_failed "b.example"],
      LevelWarn)].
Proof. vm_compute. reflexivity. Qed.

(** C5. A group whose sites are all healthy, and so a group without
    sites, is reported with severity Info by the one "all clear" message,
    which states the number of sites of the group. *)
Theorem healthy_group_report (world : World) (g : WatchGroup) (t : Trace) :
  let evs := new_events t (main_group world g t) in
  let today := first_now evs in
  let answers := map snd (dials evs) in
  let classes := group_classes g today answers in
  forallb healthy classes = true \/ Sites g = [] ->
  exists date : string,
    sends evs
    = [(g, report_clear date (Name g) (List.length (Sites g)), LevelInfo)].
Proof.
  intros evs today answers classes Hall.
  destruct (main_group_events world g t) as (now & Hlen & _ & Hs).
  fold evs today answers in Hlen, Hs.
  assert (Hh : forallb healthy classes = true).
  { destruct Hall as [H | Hnil]; [exact H |].
    rewrite Hnil in Hlen. unfold classes, group_classes.
    destruct answers; [reflexivity | discriminate]. }
  assert (Hnil : group_alerts world g today answers = []).
  { apply length_zero_iff_nil. unfold group_alerts.
    rewrite sites_alerts_length by exact Hlen.
    fold (group_classes g today answers). fold classes.
    rewrite filter_unhealthy_nil by exact Hh. reflexivity. }
  exists (Format world now "2006-01-02"). rewrite Hs, Hnil. reflexivity.
Qed.

Lemma healthy_group_report_witness :
  (exists date : string,
     sends (new_events [] (main_group Scenario.world Scenario.calm []))
     = [(Scenario.calm, report_clear date "calm" 1, LevelInfo)]) /\
  (exists date : string,
     sends (new_events [] (main_group Scenario.world Scenario.empty []))
     = [(Scenario.empty, report_clear date "empty" 0, LevelInfo)]).
Proof.
  split.
  - apply (healthy_group_report Scenario.world Scenario.calm []).
    left. vm_compute. reflexivity.
  - apply (healthy_group_report Scenario.world Scenario.empty []).
    right. reflexivity.
Defined.

(** ** The sweep *)

Lemma main_events (world : World) (config : Config) (t : Trace) :
  let evs := new_events t (main world config t) in
  map fst (dials evs) = flat_map (fun g => map dial_addr (Sites g)) (Groups config) /\
  Forall (fun d => d = the_dialer) (dialers evs) /\
  map (fun s => fst (fst s)) (sends evs) = Groups config.
Proof.
  unfold main.
  destruct (main_groups_run world (Groups config) t) as (evs & Hrun & Hd & Hdl & Hs).
  rewrite Hrun, new_events_app. cbv zeta. repeat split; assumption.
Qed.

(** C4. In a sweep [SendWxwork] is called once for every group, in the
    order of the groups: the evaluation of a group calls it exactly once,
    whatever its alerts. *)
Theorem one_delivery_per_group (world : World) (config : Config) (t : Trace) :
  map (fun s => fst (fst s)) (sends (new_events t (main world config t)))
  = Groups config /\
  forall (g : WatchGroup) (t' : Trace),
    List.length (sends (new_events t' (main_group world g t'))) = 1%nat /\
    map (fun s => fst (fst s)) (sends (new_events t' (main_group world g t'))) = [g].
Proof.
  split; [apply main_events |].
  intros g t'. destruct (main_group_events world g t') as (now & _ & _ & Hs).
  rewrite Hs. unfold group_report. destruct (group_alerts _ _ _ _); split; reflexivity.
Qed.

(** C6. A site whose probe returns an error adds the "check failed" line
    and the loop goes on with the sites after it; whatever the network
    answers, every site of every group is dialled, in order, and every
    group is reported. *)
Theorem probe_failure_is_isolated (world : World) :
  (forall (g : WatchGroup) (today : Time) (alerts : list string) (site : string)
          (rest : list string) (t : Trace) (err : error),
     fst (GetExpirationDate world site
            (t ++ [EvLog LevelInfo "checking site:" [("site"%string, site)]]))
     = inr err ->
     fst (main_site world g today alerts site t) = alerts ++ [line_failed site] /\
     main_sites world g today (site :: rest) alerts t
     = main_sites world g today rest (alerts ++ [line_failed site])
                  (snd (main_site world g today alerts site t))) /\
  (forall (g : WatchGroup) (t : Trace),
     map fst (dials (new_events t (main_group world g t))) = map dial_addr (Sites g) /\
     List.length (sends (new_events t (main_group world g t))) = 1%nat) /\
  (forall (config : Config) (t : Trace),
     map fst (dials (new_events t (main world config t)))
     = flat_map (fun g => map dial_addr (Sites g)) (Groups config) /\
     map (fun s => fst (fst s)) (sends (new_events t (main world config t)))
     = Groups config).
Proof.
  split; [| split].
  - intros g today alerts site rest t err Herr.
    assert (Hsite : fst (main_site world g today alerts site t)
                    = alerts ++ [line_failed site]).
    { unfold main_site, slog_Info, slog_Error, bind, emit, ret.
      cbv beta iota zeta.
      destruct (GetExpirationDate world site _) as [r t1]. cbn [fst] in Herr.
      rewrite Herr. cbv beta iota zeta. rewrite Sprintf_failed. reflexivity. }
    split; [exact Hsite |].
    cbn [main_sites]. unfold bind.
    destruct (main_site world g today alerts site t) as [alerts' t'].
    cbn [fst snd] in *. rewrite Hsite. reflexivity.
  - intros g t. destruct (main_group_events world g t) as (now & _ & Hd & Hs).
    split; [exact Hd |]. rewrite Hs. reflexivity.
  - intros config t. destruct (main_events world config t) as (Hd & _ & Hs).
    split; assumption.
Qed.

Lemma probe_failure_is_isolated_witness :
  fst (GetExpirationDate Scenario.world "b.example"
         [EvLog LevelInfo "checking site:" [("site"%string, "b.example"%string)]])
  = inr {| Error := "dial tcp: connect: connection refused" |} /\
  fst (main_site Scenario.world Scenario.prod Scenario.new_year [] "b.example" [])
  = [line_failed "b.example"].
Proof.
  split; [vm_compute; reflexivity |].
  apply (proj1 (probe_failure_is_isolated Scenario.world) Scenario.prod
               Scenario.new_year [] "b.example"%string [] []
               {| Error := "dial tcp: connect: connection refused" |}).
  vm_compute. reflexivity.
Defined.

(** ** The prober *)

(** C8 fails on the code: [GetExpirationDate] dials through [tls.Dial],
    that is with the zero [net.Dialer], whose [Timeout] of 0 means no
    deadline; every dial of a sweep is made so.  [SendWxwork], on the other
    hand, sends its request with a client whose [Timeout] is 10 seconds. *)
Theorem GetExpirationDate_dials_without_timeout (world : World) :
  (forall (host : string) (t : Trace),
     dialers (new_events t (GetExpirationDate world host t))
     = [{| Dialer_Timeout := 0 |}]) /\
  (forall (config : Config) (t : Trace),
     Forall (fun d => Dialer_Timeout d = 0)
            (dialers (new_events t (main world config t)))) /\
  (forall (g : WatchGroup) (msg : string) (level : Level) (t : Trace),
     Forall (fun p => Client_Timeout (fst p) = 10 * Second)
            (posts (new_events t (SendWxwork world g msg level t)))).
Proof.
  split; [| split].
  - intros host t. rewrite GetExpirationDate_run, new_events_app.
    destruct (network_dial world t the_dialer "tcp" (dial_addr host) the_config);
      reflexivity.
  - intros config t. destruct (main_events world config t) as (_ & Hdl & _).
    eapply Forall_impl; [| exact Hdl]. intros d Hd. rewrite Hd. reflexivity.
  - intros g msg level t.
    destruct (SendWxwork_run world g msg level t) as (evs & Hrun & _ & _ & _ & Hp & _).
    unfold new_events. rewrite Hrun, skipn_app, skipn_all, Nat.sub_diag. exact Hp.
Qed.

(** C9. When the connection is established the probe returns the
    [NotAfter] of the first certificate presented; when no certificate is
    presented it closes the connection and returns the error "no
    certificates found", made by the prober itself; when the connection
    fails it returns the error of the dial, and nothing is closed. *)
Theorem GetExpirationDate_result (world : World) (host : string) (t : Trace) :
  let answer := network_dial world t the_dialer "tcp" (dial_addr host) the_config in
  let dial := EvDial the_dialer "tcp" (dial_addr host) the_config answer in
  (forall (conn : tls_Conn) (leaf : Certificate) (rest : list Certificate),
     answer = inl conn -> PeerCertificates conn = leaf :: rest ->
     GetExpirationDate world host t = (inl (NotAfter leaf), t ++ [dial; EvConnClose])) /\
  (forall conn : tls_Conn,
     answer = inl conn -> PeerCertificates conn = [] ->
     GetExpirationDate world host t = (inr no_certificates, t ++ [dial; EvConnClose]) /\
     Error no_certificates = "no certificates found"%string) /\
  (forall err : error,
     answer = inr err ->
     GetExpirationDate world host t = (inr err, t ++ [dial])).
Proof.
  intros answer dial. unfold dial. clear dial.
  pose proof (GetExpirationDate_run world host t) as Hrun. cbv zeta in Hrun.
  fold answer in Hrun. rewrite Hrun.
  split; [| split].
  - intros conn leaf rest Ha Hc. rewrite Ha. unfold probe_of. rewrite Hc. reflexivity.
  - intros conn Ha Hc. rewrite Ha. unfold probe_of. rewrite Hc. split; reflexivity.
  - intros err Ha. rewrite Ha. reflexivity.
Qed.

Lemma GetExpirationDate_result_witness :
  fst (GetExpirationDate Scenario.world "a.example" []) = inl (Scenario.days_after 4) /\
  fst (GetExpirationDate Scenario.world "e.example" []) = inr no_certificates /\
  fst (GetExpirationDate Scenario.world "b.example" [])
  = inr {| Error := "dial tcp: connect: connection refused" |}.
Proof.
  split; [| split].
  - rewrite (proj1 (GetExpirationDate_result Scenario.world "a.example" [])
               {| PeerCertificates := [{| NotAfter := Scenario.days_after 4 |}] |}
               {| NotAfter := Scenario.days_after 4 |} []);
      reflexivity.
  - destruct (proj1 (proj2 (GetExpirationDate_result Scenario.world "e.example" []))
                {| PeerCertificates := [] |}) as [E _]; [reflexivity | reflexivity |].
    rewrite E. reflexivity.
  - rewrite (proj2 (proj2 (GetExpirationDate_result Scenario.world "b.example" []))
               {| Error := "dial tcp: connect: connection refused" |});
      reflexivity.
Defined.

(** ** The notifier *)

(** C10. With an empty token [SendWxwork] logs a warning and returns the
    nil error: no request is sent and nothing is dialled. *)
Theorem SendWxwork_empty_token (world : World) (g : WatchGroup) (msg : string)
    (level : Level) (t : Trace) :
  WxworkToken g = ""%string ->
  SendWxwork world g msg level t
  = (None,
     t ++ [EvSendWxwork g msg level;
           EvLog LevelWarn "wxwork_token is empty, skipping wxwork notification"
                 [("group"%string, Name g)]]) /\
  posts (new_events t (SendWxwork world g msg level t)) = [] /\
  dials (new_events t (SendWxwork world g msg level t)) = [].
Proof.
  intros Htoken.
  assert (E : SendWxwork world g msg level t
              = (None,
                 t ++ [EvSendWxwork g msg level;
                       EvLog LevelWarn "wxwork_token is empty, skipping wxwork notification"
                             [("group"%string, Name g)]])).
  { unfold SendWxwork, slog_Warn, bind, emit, ret. rewrite Htoken.
    cbn [String.eqb]. rewrite <- app_assoc. reflexivity. }
  rewrite E, new_events_app. repeat split; reflexivity.
Qed.

Lemma SendWxwork_empty_token_witness :
  WxworkToken Scenario.calm = ""%string /\
  fst (SendWxwork Scenario.world Scenario.calm "all clear" LevelInfo []) = None /\
  posts (new_events [] (SendWxwork Scenario.world Scenario.calm "all clear" LevelInfo []))
  = [].
Proof.
  split; [reflexivity |].
  destruct (SendWxwork_empty_token Scenario.world Scenario.calm "all clear" LevelInfo [])
    as (E & P & _); [reflexivity |].
  split; [rewrite E; reflexivity | exact P].
Defined.

(** * Further properties of the code *)

(** ** The days left: order, range and distance to the exact quotient *)

Lemma since_chain (a b c : Time) : since a c = since a b + since b c.
Proof. unfold since. lia. Qed.

Lemma Sub_range (t u : Time) : minDuration <= Sub t u <= maxDuration.
Proof.
  unfold Sub. destruct TimeFacts.Duration_range as [Emin Emax].
  destruct (Z.ltb_spec (since t u) minDuration);
    [| destruct (Z.ltb_spec maxDuration (since t u))]; rewrite ?Emin, ?Emax in *; lia.
Qed.

Lemma Sub_le (t1 t2 u1 u2 : Time) :
  since t1 u1 <= since t2 u2 -> Sub t1 u1 <= Sub t2 u2.
Proof.
  intros H. unfold Sub. destruct TimeFacts.Duration_range as [Emin Emax].
  destruct (Z.ltb_spec (since t1 u1) minDuration),
           (Z.ltb_spec (since t2 u2) minDuration);
    try destruct (Z.ltb_spec maxDuration (since t1 u1));
    try destruct (Z.ltb_spec maxDuration (since t2 u2));
    rewrite ?Emin, ?Emax in *; lia.
Qed.

Lemma daysLeft_le (e1 e2 t1 t2 : Time) :
  since e1 t1 <= since e2 t2 -> daysLeft e1 t1 <= daysLeft e2 t2.
Proof.
  intros H. rewrite !daysLeft_days_of.
  apply TimeFacts.days_of_le; [apply Sub_range | apply Sub_range | apply Sub_le, H].
Qed.

(** X1. The days left grow with the expiry and shrink as the clock
    advances: a later expiry never has fewer days left, a later [today]
    never more. *)
Theorem daysLeft_monotone (e1 e2 t1 t2 : Time) :
  since e1 e2 <= 0 -> since t1 t2 <= 0 ->
  daysLeft e1 t2 <= daysLeft e2 t1.
Proof.
  intros He Ht. apply daysLeft_le.
  rewrite (since_chain e1 e2 t2), (since_chain e2 t1 t2). lia.
Qed.

Lemma daysLeft_monotone_witness :
  daysLeft (Scenario.days_after 4) (Scenario.days_after 1)
  <= daysLeft (Scenario.days_after 90) Scenario.new_year.
Proof.
  apply (daysLeft_monotone (Scenario.days_after 4) (Scenario.days_after 90)
           Scenario.new_year (Scenario.days_after 1)); vm_compute; discriminate.
Defined.

(** X2. Whatever the two instants, the days left lie between -106751 and
    106751: the conversion to [int] never leaves the range of the type. *)
Theorem daysLeft_range (expire today : Time) :
  -106751 <= daysLeft expire today <= 106751.
Proof.
  rewrite daysLeft_days_of. pose proof (Sub_range expire today) as [Hlo Hhi].
  assert (El : days_of minDuration = -106751) by (vm_compute; reflexivity).
  assert (Eh : days_of maxDuration = 106751) by (vm_compute; reflexivity).
  pose proof (TimeFacts.days_of_le minDuration (Sub expire today)
                ltac:(lia) Hhi Hlo) as H1.
  pose proof (TimeFacts.days_of_le (Sub expire today) maxDuration
                Hlo ltac:(lia) Hhi) as H2.
  lia.
Qed.

Lemma days_of_whole_days (N : Z) :
  minDuration <= N * (24 * Hour) <= maxDuration -> days_of (N * (24 * Hour)) = N.
Proof.
  intros H. replace (N * (24 * Hour)) with ((24 * N) * Hour) in * by lia.
  rewrite DaysFacts.days_of_whole_hours by exact H.
  rewrite Z.mul_comm. apply Z.quot_mul. lia.
Qed.

Lemma days_of_day (N : Z) :
  -9223372036854775808 <= N * 86400000000000 <= 9223372036854775807 ->
  days_of (N * 86400000000000) = N.
Proof.
  intros H. apply (days_of_whole_days N).
  destruct TimeFacts.Duration_range as [Emin Emax].
  rewrite Emin, Emax, DaysFacts.Day_value. exact H.
Qed.

Lemma days_of_mono (d1 d2 : Z) :
  -9223372036854775808 <= d1 -> d2 <= 9223372036854775807 -> d1 <= d2 ->
  days_of d1 <= days_of d2.
Proof.
  intros H1 H2 H. destruct TimeFacts.Duration_range as [Emin Emax].
  apply TimeFacts.days_of_le; rewrite ?Emin, ?Emax; assumption.
Qed.

Lemma days_of_ends : days_of (-9223372036854775808) = -106751 /\
                     days_of 9223372036854775807 = 106751.
Proof. split; vm_compute; reflexivity. Qed.

Lemma days_of_above (d : Duration) :
  0 <= d <= maxDuration -> d / (24 * Hour) <= days_of d <= d / (24 * Hour) + 1.
Proof.
  intros Hd. destruct TimeFacts.Duration_range as [_ Emax].
  rewrite Emax in Hd. rewrite DaysFacts.Day_value.
  set (N := d / 86400000000000).
  pose proof (Z.div_mod d 86400000000000 ltac:(lia)) as Ed.
  pose proof (Z.mod_pos_bound d 86400000000000 ltac:(lia)) as Hm. fold N in Ed.
  assert (HN : 0 <= N) by (apply Z.div_pos; lia).
  split.
  - pose proof (days_of_day N ltac:(lia)) as E.
    pose proof (days_of_mono (N * 86400000000000) d ltac:(lia) ltac:(lia) ltac:(lia)).
    lia.
  - destruct (Z.le_gt_cases ((N + 1) * 86400000000000) 9223372036854775807) as [In | Out].
    + pose proof (days_of_day (N + 1) ltac:(lia)) as E.
      pose proof (days_of_mono d ((N + 1) * 86400000000000)
                    ltac:(lia) ltac:(lia) ltac:(lia)).
      lia.
    + destruct days_of_ends as [_ Eh].
      pose proof (days_of_mono d 9223372036854775807 ltac:(lia) ltac:(lia) ltac:(lia)).
      lia.
Qed.

Lemma days_of_below (d : Duration) :
  minDuration <= d <= 0 ->
  - ((- d) / (24 * Hour)) - 1 <= days_of d <= - ((- d) / (24 * Hour)).
Proof.
  intros Hd. destruct TimeFacts.Duration_range as [Emin _].
  rewrite Emin in Hd. rewrite DaysFacts.Day_value.
  set (N := (- d) / 86400000000000).
  pose proof (Z.div_mod (- d) 86400000000000 ltac:(lia)) as Ed.
  pose proof (Z.mod_pos_bound (- d) 86400000000000 ltac:(lia)) as Hm. fold N in Ed.
  assert (HN : 0 <= N) by (apply Z.div_pos; lia).
  split.
  - destruct (Z.le_gt_cases (-9223372036854775808) ((- N - 1) * 86400000000000))
      as [In | Out].
    + pose proof (days_of_day (- N - 1) ltac:(lia)) as E.
      pose proof (days_of_mono ((- N - 1) * 86400000000000) d
                    ltac:(lia) ltac:(lia) ltac:(lia)).
      lia.
    + destruct days_of_ends as [El _].
      pose proof (days_of_mono (-9223372036854775808) d
                    ltac:(lia) ltac:(lia) ltac:(lia)).
      lia.
  - pose proof (days_of_day (- N) ltac:(lia)) as E.
    pose proof (days_of_mono d (- N * 86400000000000) ltac:(lia) ltac:(lia) ltac:(lia)).
    lia.
Qed.

(** X3. When the distance to the expiry fits a [Duration], the days left
    are the exact truncated quotient or the next integer away from zero:
    the rounding of [Hours()] never loses a day and never adds more than
    one. *)
Theorem daysLeft_within_one (expire today : Time) :
  minDuration <= since expire today <= maxDuration ->
  (0 <= since expire today ->
   exact_days expire today <= daysLeft expire today <= exact_days expire today + 1) /\
  (since expire today <= 0 ->
   exact_days expire today - 1 <= daysLeft expire today <= exact_days expire today).
Proof.
  intros Hr. rewrite daysLeft_days_of, Sub_in_range by exact Hr. unfold exact_days.
  split; intros Hs.
  - rewrite Z.quot_div_nonneg by (rewrite ?DaysFacts.Day_value; lia).
    apply days_of_above. lia.
  - rewrite <- (Z.opp_involutive (since expire today)) at 1 4.
    rewrite Z.quot_opp_l by (rewrite DaysFacts.Day_value; lia).
    rewrite Z.quot_div_nonneg by (rewrite ?DaysFacts.Day_value; lia).
    apply days_of_below. lia.
Qed.

Lemma daysLeft_within_one_witness :
  let expire := {| sec := 1721347200; nsec := 0 |} in
  let today := {| sec := 1704067200; nsec := 1 |} in
  exact_days expire today <= daysLeft expire today <= exact_days expire today + 1.
Proof.
  intros expire today.
  apply (proj1 (daysLeft_within_one expire today ltac:(vm_compute; split; discriminate))).
  vm_compute. discriminate.
Defined.

Lemma daysLeft_same (t : Time) : daysLeft t t = 0.
Proof.
  rewrite daysLeft_days_of. unfold Sub.
  replace (since t t) with 0 by (unfold since; lia). vm_compute. reflexivity.
Qed.

(** X4. A certificate that has not expired yet is never given the
    "expired" line, and one that expired 24 hours ago or earlier is always
    given it, whatever the redline of the group. *)
Theorem expired_line_follows_the_clock (world : World) (group : WatchGroup)
    (site : string) (expire today : Time) (alerts : list string) :
  (0 <= since expire today ->
   0 <= daysLeft expire today /\
   main_classify world group site expire (daysLeft expire today) alerts
   <> alerts ++ [line_expired world site expire]) /\
  (since expire today <= - (24 * Hour) ->
   daysLeft expire today <= -1 /\
   main_classify world group site expire (daysLeft expire today) alerts
   = alerts ++ [line_expired world site expire]).
Proof.
  split; intros Hs.
  - assert (H0 : 0 <= daysLeft expire today).
    { rewrite <- (daysLeft_same today). apply daysLeft_le. unfold since in *. lia. }
    split; [exact H0 |]. rewrite main_classify_cases.
    destruct (Z.ltb_spec (daysLeft expire today) 0) as [Hn | Hp]; [lia |].
    destruct (daysLeft expire today <=? DayBeforeExpiration group); intros Habs.
    + apply app_one_inj in Habs. exact (line_soon_neq_expired _ _ _ _ Habs).
    + symmetry in Habs. exact (app_one_neq _ _ Habs).
  - assert (H1 : daysLeft expire today <= -1).
    { rewrite daysLeft_days_of.
      assert (E : days_of (- (24 * Hour)) = -1) by (vm_compute; reflexivity).
      rewrite <- E. apply days_of_mono.
      - pose proof (Sub_range expire today) as [Hlo _].
        destruct TimeFacts.Duration_range as [Emin _]. rewrite Emin in Hlo. exact Hlo.
      - vm_compute. discriminate.
      - unfold Sub. destruct TimeFacts.Duration_range as [Emin Emax].
        rewrite DaysFacts.Day_value in *.
        destruct (Z.ltb_spec (since expire today) minDuration);
          [| destruct (Z.ltb_spec maxDuration (since expire today))];
          rewrite ?Emin, ?Emax in *; lia. }
    split; [exact H1 |]. rewrite main_classify_cases.
    destruct (Z.ltb_spec (daysLeft expire today) 0) as [Hn | Hp]; [| lia].
    destruct (daysLeft expire today <=? DayBeforeExpiration group); reflexivity.
Qed.

Lemma expired_line_follows_the_clock_witness :
  main_classify Scenario.world Scenario.prod "d.example" (Scenario.days_after (-9))
                (daysLeft (Scenario.days_after (-9)) Scenario.new_year) []
  = [line_expired Scenario.world "d.example" (Scenario.days_after (-9))] /\
  0 <= daysLeft (Scenario.days_after 4) Scenario.new_year.
Proof.
  split.
  - apply (proj2 (expired_line_follows_the_clock Scenario.world Scenario.prod
                    "d.example" (Scenario.days_after (-9)) Scenario.new_year [])).
    vm_compute. discriminate.
  - apply (proj1 (expired_line_follows_the_clock Scenario.world Scenario.prod
                    "a.example" (Scenario.days_after 4) Scenario.new_year [])).
    vm_compute. discriminate.
Defined.

(** X5. An expiry further away than a [Duration] can hold (about 292
    years) is read as 106751 days, in the past as -106751 days, however far
    it really is. *)
Theorem daysLeft_saturated (expire today : Time) :
  (maxDuration <= since expire today -> daysLeft expire today = 106751) /\
  (since expire today <= minDuration -> daysLeft expire today = -106751).
Proof.
  destruct TimeFacts.Duration_range as [Emin Emax].
  split; intros H; rewrite daysLeft_days_of; unfold Sub.
  - destruct (Z.ltb_spec (since expire today) minDuration); [rewrite Emin, Emax in *; lia |].
    destruct (Z.ltb_spec maxDuration (since expire today)).
    + vm_compute. reflexivity.
    + replace (since expire today) with maxDuration by lia. vm_compute. reflexivity.
  - destruct (Z.ltb_spec (since expire today) minDuration).
    + vm_compute. reflexivity.
    + replace (since expire today) with minDuration by lia.
      change (maxDuration <? minDuration) with false. cbv iota.
      vm_compute. reflexivity.
Qed.

Lemma daysLeft_saturated_witness :
  daysLeft {| sec := 253402300799; nsec := 0 |} Scenario.new_year = 106751.
Proof.
  apply (proj1 (daysLeft_saturated {| sec := 253402300799; nsec := 0 |}
                  Scenario.new_year)).
  vm_compute. discriminate.
Defined.

(** ** The classification at the edges of the redline *)

(** X6. With a negative redline no site is ever "expiring soon": a probed
    site gets the "expired" line when its days left are negative and no
    line otherwise. *)
Theorem negative_redline_never_warns (world : World) (group : WatchGroup)
    (site : string) (expire : Time) (D : Z) (alerts : list string) :
  DayBeforeExpiration group < 0 ->
  main_classify world group site expire D alerts
  = (if D <? 0 then alerts ++ [line_expired world site expire] else alerts) /\
  main_classify world group site expire D alerts
  <> alerts ++ [line_soon world site D expire].
Proof.
  intros HR. rewrite main_classify_cases.
  destruct (Z.ltb_spec D 0) as [Hn | Hp],
           (Z.leb_spec D (DayBeforeExpiration group)) as [Hle | Hgt];
    try lia; split; try reflexivity; intros Habs.
  - apply app_one_inj in Habs. symmetry in Habs.
    exact (line_soon_neq_expired _ _ _ _ Habs).
  - apply app_one_inj in Habs. symmetry in Habs.
    exact (line_soon_neq_expired _ _ _ _ Habs).
  - symmetry in Habs. exact (app_one_neq _ _ Habs).
Qed.

Lemma negative_redline_never_warns_witness :
  main_classify Scenario.world
    {| Name := "strict"; WxworkToken := ""; Interval := 60;
       DayBeforeExpiration := -1; Sites := ["a.example"%string] |}
    "a.example" (Scenario.days_after 0) 0 [] = [].
Proof.
  rewrite (proj1 (negative_redline_never_warns Scenario.world
                    {| Name := "strict"; WxworkToken := ""; Interval := 60;
                       DayBeforeExpiration := -1; Sites := ["a.example"%string] |}
                    "a.example" (Scenario.days_after 0) 0 [] ltac:(simpl; lia))).
  reflexivity.
Defined.

(** ** The prober's address *)

Lemma Contains_colon_443 (host : string) :
  strings_Contains (String.append host ":443") ":" = true.
Proof.
  unfold strings_Contains.
  assert (H : exists n, String.index 0 ":" (String.append host ":443") = Some n).
  { induction host as [| c host [n IH]].
    - exists 0%nat. vm_compute. reflexivity.
    - cbn [String.append String.index].
      destruct (String.prefix ":" (String c (String.append host ":443")));
        [exists 0%nat; reflexivity |].
      rewrite IH. exists (S n). reflexivity. }
  destruct H as [n H]. rewrite H. reflexivity.
Qed.

Lemma dial_addr_Contains (host : string) : strings_Contains (dial_addr host) ":" = true.
Proof.
  unfold dial_addr. destruct (strings_Contains host ":") eqn:E;
    [exact E | apply Contains_colon_443].
Qed.

(** X7. The prober dials exactly one address, which always names a port:
    a host that contains a colon (an explicit port, or a bare IPv6
    address) is dialled as it is, any other host with ":443" appended; an
    address so obtained is dialled unchanged. *)
Theorem GetExpirationDate_address (world : World) (host : string) (t : Trace) :
  exists (addr : string) (answer : tls_Conn + error),
    dials (new_events t (GetExpirationDate world host t)) = [(addr, answer)] /\
    strings_Contains addr ":" = true /\
    (strings_Contains host ":" = true -> addr = host) /\
    (strings_Contains host ":" = false -> addr = String.append host ":443") /\
    (forall t' : Trace,
       map fst (dials (new_events t' (GetExpirationDate world addr t'))) = [addr]).
Proof.
  exists (dial_addr host).
  exists (network_dial world t the_dialer "tcp" (dial_addr host) the_config).
  rewrite GetExpirationDate_run, new_events_app.
  split; [| split; [| split; [| split]]].
  - destruct (network_dial world t the_dialer "tcp" (dial_addr host) the_config);
      reflexivity.
  - apply dial_addr_Contains.
  - intros H. unfold dial_addr. rewrite H. reflexivity.
  - intros H. unfold dial_addr. rewrite H. reflexivity.
  - intros t'. rewrite GetExpirationDate_run, new_events_app.
    assert (E : dial_addr (dial_addr host) = dial_addr host).
    { unfold dial_addr at 1. rewrite dial_addr_Contains. reflexivity. }
    rewrite E.
    destruct (network_dial world t' the_dialer "tcp" (dial_addr host) the_config);
      reflexivity.
Qed.

Lemma GetExpirationDate_address_witness :
  map fst (dials (new_events [] (GetExpirationDate Scenario.world "[::1]:8443" [])))
  = ["[::1]:8443"%string] /\
  map fst (dials (new_events [] (GetExpirationDate Scenario.world "a.example" [])))
  = ["a.example:443"%string].
Proof.
  destruct (GetExpirationDate_address Scenario.world "[::1]:8443" [])
    as (a1 & r1 & D1 & _ & K1 & _).
  destruct (GetExpirationDate_address Scenario.world "a.example" [])
    as (a2 & r2 & D2 & _ & _ & K2 & _).
  rewrite D1, D2, (K1 eq_refl), (K2 eq_refl). split; reflexivity.
Defined.

(** ** The notifier, path by path *)

Lemma payload_verbatim (msg : string) :
  Sprintf WxworkMsgTplInfo [ArgS msg]
  = String.append payload_prefix (String.append msg payload_suffix).
Proof. reflexivity. Qed.

Lemma Header_Set_fresh (method url body : string) :
  Header_Set {| Method := method; URL := url; Header := []; Body := body |}
             "Content-Type" "application/json"
  = {| Method := method; URL := url;
       Header := [("Content-Type", "application/json")]%string; Body := body |}.
Proof. reflexivity. Qed.

(** The five paths of [SendWxwork]. *)
Lemma SendWxwork_cases (world : World) (g : WatchGroup) (msg : string) (level : Level)
    (t : Trace) :
  let token := WxworkToken g in
  let req := wxwork_request token msg in
  let marker := EvSendWxwork g msg level in
  let post := EvLog LevelInfo "post"
                [("url"%string, webhook_url token); ("data"%string, Body req)] in
  let run := SendWxwork world g msg level t in
  if String.eqb token "" then
    run = (None,
           t ++ [marker;
                 EvLog LevelWarn "wxwork_token is empty, skipping wxwork notification"
                       [("group"%string, Name g)]])
  else
    match url_error world (webhook_url token) with
    | Some err => run = (Some err, t ++ [marker])
    | None =>
        match network_http world (t ++ [marker; post]) wxwork_client req with
        | inr err => run = (Some err, t ++ [marker; post; EvHttpDo wxwork_client req (inr err)])
        | inl resp =>
            if StatusCode resp =? StatusOK then
              run = (None,
                     t ++ [marker; post; EvHttpDo wxwork_client req (inl resp);
                           EvLog LevelInfo "body" [("response"%string, Response_Body resp)];
                           EvLog LevelInfo "wxwork notification sent successfully"
                                 [("group"%string, Name g);
                                  ("level"%string, Level_String level)];
                           EvBodyClose])
            else
              run = (Some {| Error := String.append
                                        "wxwork notification failed with status code: "
                                        (itoa (StatusCode resp)) |},
                     t ++ [marker; post; EvHttpDo wxwork_client req (inl resp);
                           EvLog LevelError "wxwork notification failed"
                                 [("status_code"%string, itoa (StatusCode resp));
                                  ("group"%string, Name g)];
                           EvBodyClose])
        end
    end.
Proof.
  cbv zeta.
  unfold SendWxwork, slog_Warn, slog_Info, slog_Error, Client_Do, http_NewRequest,
    bind, emit, ask, ret.
  rewrite payload_verbatim. fold (webhook_url (WxworkToken g)).
  destruct (String.eqb (WxworkToken g) "").
  - rewrite <- app_assoc. reflexivity.
  - destruct (url_error world (webhook_url (WxworkToken g))) as [err |]; [reflexivity |].
    rewrite Header_Set_fresh. cbv beta iota zeta.
    fold (wxwork_request (WxworkToken g) msg). fold wxwork_client.
    unfold wxwork_request at 1 2. cbn [URL Body].
    rewrite <- !app_assoc. cbn [app].
    fold (wxwork_request (WxworkToken g) msg).
    destruct (network_http world _ wxwork_client (wxwork_request (WxworkToken g) msg))
      as [resp | err].
    + destruct (StatusCode resp =? StatusOK); cbn [negb];
        rewrite <- ?app_assoc; cbn [app]; try reflexivity.
      unfold fmt_Errorf.
      replace (Sprintf "wxwork notification failed with status code: %d"
                       [ArgD (StatusCode resp)])
        with (String.append "wxwork notification failed with status code: "
                            (itoa (StatusCode resp)))
        by (rewrite <- (append_empty_r (itoa (StatusCode resp))) at 1; reflexivity).
      reflexivity.
    + rewrite <- ?app_assoc. reflexivity.
Qed.

Lemma eqb_empty_false (s : string) : s <> ""%string -> String.eqb s "" = false.
Proof. intros H. apply String.eqb_neq. exact H. Qed.

(** X8. [SendWxwork] returns the nil error in two cases only: the token
    is empty, or the request was built, answered and the answer has
    status 200. *)
Theorem SendWxwork_succeeds_iff (world : World) (g : WatchGroup) (msg : string)
    (level : Level) (t : Trace) :
  let token := WxworkToken g in
  let req := wxwork_request token msg in
  let sent := t ++ [EvSendWxwork g msg level;
                    EvLog LevelInfo "post"
                      [("url"%string, webhook_url token); ("data"%string, Body req)]] in
  fst (SendWxwork world g msg level t) = None <->
  token = ""%string \/
  (url_error world (webhook_url token) = None /\
   exists resp : Response,
     network_http world sent wxwork_client req = inl resp /\ StatusCode resp = 200).
Proof.
  cbv zeta. pose proof (SendWxwork_cases world g msg level t) as H. cbv zeta in H.
  destruct (String.eqb_spec (WxworkToken g) "") as [Ee | Ne].
  - rewrite H. split; [left; exact Ee | reflexivity].
  - destruct (url_error world (webhook_url (WxworkToken g))) as [err |].
    + rewrite H. split; [discriminate | intros [E | [E _]]; [contradiction | discriminate]].
    + destruct (network_http world _ wxwork_client _) as [resp | err].
      * destruct (Z.eqb_spec (StatusCode resp) StatusOK) as [Es | Ns]; rewrite H.
        -- split; [| reflexivity]. intros _. right. split; [reflexivity |].
           exists resp. split; [reflexivity | exact Es].
        -- split; [discriminate |].
           intros [E | [_ (resp' & Er & Ec)]]; [contradiction |].
           injection Er as <-. contradiction.
      * rewrite H. split; [discriminate |].
        intros [E | [_ (resp' & Er & _)]]; [contradiction | discriminate].
Qed.

(** X9. When the webhook answers with a status other than 200,
    [SendWxwork] returns an error that states the status code, and the
    body of the response is closed. *)
Theorem SendWxwork_rejected (world : World) (g : WatchGroup) (msg : string)
    (level : Level) (t : Trace) (resp : Response) :
  let token := WxworkToken g in
  let req := wxwork_request token msg in
  let sent := t ++ [EvSendWxwork g msg level;
                    EvLog LevelInfo "post"
                      [("url"%string, webhook_url token); ("data"%string, Body req)]] in
  token <> ""%string ->
  url_error world (webhook_url token) = None ->
  network_http world sent wxwork_client req = inl resp ->
  StatusCode resp <> 200 ->
  fst (SendWxwork world g msg level t)
  = Some {| Error := String.append "wxwork notification failed with status code: "
                                   (itoa (StatusCode resp)) |} /\
  body_closes (new_events t (SendWxwork world g msg level t)) = 1%nat /\
  posts (new_events t (SendWxwork world g msg level t)) = [(wxwork_client, req)].
Proof.
  cbv zeta. intros Ht Hu Hr Hc.
  pose proof (SendWxwork_cases world g msg level t) as H. cbv zeta in H.
  rewrite (eqb_empty_false _ Ht), Hu, Hr in H.
  destruct (Z.eqb_spec (StatusCode resp) StatusOK) as [Es | Ns]; [contradiction |].
  rewrite H, new_events_app. repeat split; reflexivity.
Qed.

Lemma SendWxwork_rejected_witness :
  fst (SendWxwork (Webhook.answering 500) Scenario.prod "m" LevelWarn [])
  = Some {| Error := "wxwork notification failed with status code: 500" |}.
Proof.
  apply (SendWxwork_rejected (Webhook.answering 500) Scenario.prod "m" LevelWarn []
           {| StatusCode := 500; Response_Body := "no" |});
    [discriminate | reflexivity | reflexivity | discriminate].
Defined.

(** X10. When the request cannot be built or gets no answer,
    [SendWxwork] returns the error it was given: with an invalid URL
    nothing is sent, and without an answer no body is closed. *)
Theorem SendWxwork_undelivered (world : World) (g : WatchGroup) (msg : string)
    (level : Level) (t : Trace) (err : error) :
  let token := WxworkToken g in
  let req := wxwork_request token msg in
  let sent := t ++ [EvSendWxwork g msg level;
                    EvLog LevelInfo "post"
                      [("url"%string, webhook_url token); ("data"%string, Body req)]] in
  token <> ""%string ->
  (url_error world (webhook_url token) = Some err ->
   SendWxwork world g msg level t = (Some err, t ++ [EvSendWxwork g msg level])) /\
  (url_error world (webhook_url token) = None ->
   network_http world sent wxwork_client req = inr err ->
   fst (SendWxwork world g msg level t) = Some err /\
   posts (new_events t (SendWxwork world g msg level t)) = [(wxwork_client, req)] /\
   body_closes (new_events t (SendWxwork world g msg level t)) = 0%nat).
Proof.
  cbv zeta. intros Ht.
  pose proof (SendWxwork_cases world g msg level t) as H. cbv zeta in H.
  rewrite (eqb_empty_false _ Ht) in H. split.
  - intros Hu. rewrite Hu in H. exact H.
  - intros Hu Hr. rewrite Hu, Hr in H. rewrite H, new_events_app.
    repeat split; reflexivity.
Qed.

Lemma SendWxwork_undelivered_witness :
  SendWxwork Webhook.strict Webhook.broken "m" LevelInfo []
  = (Some {| Error := "net/url: invalid control character in URL" |},
     [EvSendWxwork Webhook.broken "m" LevelInfo]) /\
  fst (SendWxwork Webhook.unreachable Scenario.prod "m" LevelInfo [])
  = Some {| Error := "context deadline exceeded" |}.
Proof.
  split.
  - apply (proj1 (SendWxwork_undelivered Webhook.strict Webhook.broken "m" LevelInfo []
                    {| Error := "net/url: invalid control character in URL" |}
                    ltac:(discriminate))).
    vm_compute. reflexivity.
  - apply (proj2 (SendWxwork_undelivered Webhook.unreachable Scenario.prod "m" LevelInfo []
                    {| Error := "context deadline exceeded" |} ltac:(discriminate)));
      reflexivity.
Defined.

(** X11. With a token and a valid URL [SendWxwork] sends exactly one
    request, whatever comes back: a POST to the webhook URL of the token,
    with a 10 second timeout, the JSON content type and the template with
    the message put in as it is, without any escaping.  The severity is
    not part of it: the request is the same for every level. *)
Theorem SendWxwork_request (world : World) (g : WatchGroup) (msg : string)
    (level : Level) (t : Trace) :
  WxworkToken g <> ""%string ->
  url_error world (webhook_url (WxworkToken g)) = None ->
  posts (new_events t (SendWxwork world g msg level t))
  = [({| Client_Timeout := 10 * Second |},
      {| Method := "POST";
         URL := String.append "https://qyapi.weixin.qq.com/cgi-bin/webhook/send?key="
                              (WxworkToken g);
         Header := [("Content-Type", "application/json")]%string;
         Body := String.append payload_prefix (String.append msg payload_suffix) |})] /\
  forall level' : Level,
    posts (new_events t (SendWxwork world g msg level' t))
    = posts (new_events t (SendWxwork world g msg level t)).
Proof.
  intros Ht Hu.
  assert (P : forall l, posts (new_events t (SendWxwork world g msg l t))
                        = [(wxwork_client, wxwork_request (WxworkToken g) msg)]).
  { intros l. pose proof (SendWxwork_cases world g msg l t) as H. cbv zeta in H.
    rewrite (eqb_empty_false _ Ht), Hu in H.
    destruct (network_http world _ wxwork_client _) as [resp | err].
    - destruct (StatusCode resp =? StatusOK); rewrite H, new_events_app; reflexivity.
    - rewrite H, new_events_app. reflexivity. }
  split; [rewrite P; reflexivity |].
  intros level'. rewrite !P. reflexivity.
Qed.

Lemma SendWxwork_request_witness :
  map (fun p => URL (snd p))
      (posts (new_events [] (SendWxwork (Webhook.answering 500) Scenario.prod "m"
                               LevelWarn [])))
  = ["https://qyapi.weixin.qq.com/cgi-bin/webhook/send?key=k"%string].
Proof.
  rewrite (proj1 (SendWxwork_request (Webhook.answering 500) Scenario.prod "m" LevelWarn []
                    ltac:(discriminate) eq_refl)).
  reflexivity.
Defined.

(** ** Invariants of a sweep *)

Section Invariants.

Variable world : World.
Variable P : Trace -> Prop.
Hypothesis P_nil : P [].
Hypothesis P_app : forall a b : Trace, P a -> P b -> P (a ++ b).
Hypothesis P_log : forall level msg attrs, P [EvLog level msg attrs].
Hypothesis P_now : forall n, P [EvNow n].
Hypothesis P_probe :
  forall host t, P (new_events t (GetExpirationDate world host t)).
Hypothesis P_send :
  forall g msg level t, P (new_events t (SendWxwork world g msg level t)).

Lemma adds_ret {A : Type} (a : A) : adds P (ret a).
Proof. intros t. exists []. rewrite app_nil_r. split; [reflexivity | exact P_nil]. Qed.

Lemma adds_bind {A B : Type} (m : M A) (k : A -> M B) :
  adds P m -> (forall a, adds P (k a)) -> adds P (bind m k).
Proof.
  intros Hm Hk t. unfold bind. destruct (Hm t) as (evs1 & E1 & P1).
  destruct (m t) as [a t1]. cbn [snd] in E1. subst t1.
  destruct (Hk a (t ++ evs1)) as (evs2 & E2 & P2).
  exists (evs1 ++ evs2). rewrite E2, app_assoc. split; [reflexivity |].
  apply P_app; assumption.
Qed.

Lemma adds_log (level : Level) (msg : string) (attrs : list (string * string)) :
  adds P (emit (EvLog level msg attrs)).
Proof. intros t. eexists. split; [reflexivity | apply P_log]. Qed.

Lemma adds_Now : adds P (time_Now world).
Proof. intros t. eexists. split; [reflexivity | apply P_now]. Qed.

Lemma adds_GetExpirationDate (host : string) : adds P (GetExpirationDate world host).
Proof.
  intros t. pose proof (P_probe host t) as H.
  rewrite GetExpirationDate_run in *. rewrite new_events_app in H.
  eexists. split; [reflexivity | exact H].
Qed.

Lemma adds_SendWxwork (g : WatchGroup) (msg : string) (level : Level) :
  adds P (SendWxwork world g msg level).
Proof.
  intros t. pose proof (P_send g msg level t) as H.
  destruct (SendWxwork_run world g msg level t) as (evs & E & _).
  unfold new_events in H. rewrite E, skipn_app, skipn_all, Nat.sub_diag in H.
  exists evs. split; assumption.
Qed.

Lemma adds_main_site (g : WatchGroup) (today : Time) (alerts : list string)
    (site : string) : adds P (main_site world g today alerts site).
Proof.
  unfold main_site, slog_Info, slog_Error.
  apply adds_bind; [apply adds_log | intros _].
  apply adds_bind; [apply adds_GetExpirationDate | intros [expire | err]].
  - apply adds_bind; [apply adds_log | intros _; apply adds_ret].
  - apply adds_bind; [apply adds_log | intros _; apply adds_ret].
Qed.

Lemma adds_main_sites (g : WatchGroup) (today : Time) (sites : list string) :
  forall alerts : list string, adds P (main_sites world g today sites alerts).
Proof.
  induction sites as [| site rest IH]; intros alerts; cbn [main_sites].
  - apply adds_ret.
  - apply adds_bind; [apply adds_main_site | intros alerts'; apply IH].
Qed.

Lemma adds_main_report (g : WatchGroup) (alerts : list string) :
  adds P (main_report world g alerts).
Proof.
  unfold main_report, slog_Info.
  destruct (Z.of_nat (List.length alerts) <=? 0).
  - apply adds_bind; [apply adds_log | intros _].
    apply adds_bind; [apply adds_Now | intros now].
    apply adds_bind; [apply adds_SendWxwork | intros _; apply adds_ret].
  - apply adds_bind; [apply adds_log | intros _].
    apply adds_bind; [apply adds_Now | intros now].
    apply adds_bind; [apply adds_SendWxwork | intros _; apply adds_ret].
Qed.

Lemma adds_main_group (g : WatchGroup) : adds P (main_group world g).
Proof.
  unfold main_group, slog_Info.
  apply adds_bind; [apply adds_log | intros _].
  apply adds_bind; [apply adds_Now | intros today].
  apply adds_bind; [apply adds_main_sites | intros alerts; apply adds_main_report].
Qed.

Lemma adds_main_groups (groups : list WatchGroup) : adds P (main_groups world groups).
Proof.
  induction groups as [| g rest IH]; cbn [main_groups].
  - apply adds_ret.
  - apply adds_bind; [apply adds_main_group | intros _; exact IH].
Qed.

(** A property of traces that holds of the empty trace, of a trace put
    together from two traces that have it, of every log line and clock
    reading and of what one probe and one notification add, holds of what a
    sweep adds. *)
Lemma sweep_invariant (config : Config) (t : Trace) :
  P (new_events t (main world config t)).
Proof.
  destruct (adds_main_groups (Groups config) t) as (evs & E & H).
  unfold new_events, main. rewrite E, skipn_app, skipn_all, Nat.sub_diag. exact H.
Qed.

End Invariants.

(** What [SendWxwork] returns and adds, by cases on its five paths. *)
Lemma SendWxwork_elim (world : World) (g : WatchGroup) (msg : string) (level : Level)
    (t : Trace) (Q : option error -> Trace -> Prop) :
  let req := wxwork_request (WxworkToken g) msg in
  let marker := EvSendWxwork g msg level in
  let post := EvLog LevelInfo "post"
                [("url"%string, webhook_url (WxworkToken g)); ("data"%string, Body req)] in
  (WxworkToken g = ""%string ->
   Q None [marker;
           EvLog LevelWarn "wxwork_token is empty, skipping wxwork notification"
                 [("group"%string, Name g)]]) ->
  (WxworkToken g <> ""%string -> forall err, Q (Some err) [marker]) ->
  (WxworkToken g <> ""%string ->
   forall err, Q (Some err) [marker; post; EvHttpDo wxwork_client req (inr err)]) ->
  (WxworkToken g <> ""%string ->
   forall resp,
     Q None [marker; post; EvHttpDo wxwork_client req (inl resp);
             EvLog LevelInfo "body" [("response"%string, Response_Body resp)];
             EvLog LevelInfo "wxwork notification sent successfully"
                   [("group"%string, Name g); ("level"%string, Level_String level)];
             EvBodyClose]) ->
  (WxworkToken g <> ""%string ->
   forall resp,
     Q (Some {| Error := String.append "wxwork notification failed with status code: "
                                       (itoa (StatusCode resp)) |})
       [marker; post; EvHttpDo wxwork_client req (inl resp);
        EvLog LevelError "wxwork notification failed"
              [("status_code"%string, itoa (StatusCode resp)); ("group"%string, Name g)];
        EvBodyClose]) ->
  Q (fst (SendWxwork world g msg level t)) (new_events t (SendWxwork world g msg level t)).
Proof.
  cbv zeta. intros Q1 Q2 Q3 Q4 Q5.
  pose proof (SendWxwork_cases world g msg level t) as H. cbv zeta in H.
  destruct (String.eqb_spec (WxworkToken g) "") as [Ee | Ne].
  - rewrite H, new_events_app. apply Q1, Ee.
  - destruct (url_error world (webhook_url (WxworkToken g))) as [err |].
    + rewrite H, new_events_app. apply Q2, Ne.
    + destruct (network_http world _ wxwork_client _) as [resp | err].
      * destruct (StatusCode resp =? StatusOK); rewrite H, new_events_app.
        -- apply Q4, Ne.
        -- apply Q5, Ne.
      * rewrite H, new_events_app. apply Q3, Ne.
Qed.

Lemma established_app (a b : Trace) :
  established (a ++ b) = (established a + established b)%nat.
Proof. unfold established. rewrite filter_app, length_app. reflexivity. Qed.

Lemma closes_app (a b : Trace) : closes (a ++ b) = (closes a + closes b)%nat.
Proof. unfold closes. rewrite filter_app, length_app. reflexivity. Qed.

Lemma responses_app (a b : Trace) :
  responses (a ++ b) = (responses a + responses b)%nat.
Proof. unfold responses. rewrite filter_app, length_app. reflexivity. Qed.

Lemma body_closes_app (a b : Trace) :
  body_closes (a ++ b) = (body_closes a + body_closes b)%nat.
Proof. unfold body_closes. rewrite filter_app, length_app. reflexivity. Qed.

(** X12. In a sweep every connection that is established is closed, and
    nothing else is: the trace holds as many closings as successful dials,
    whatever the network answers. *)
Theorem connections_are_closed (world : World) (config : Config) (t : Trace) :
  closes (new_events t (main world config t))
  = established (new_events t (main world config t)) /\
  forall (host : string) (t' : Trace),
    closes (new_events t' (GetExpirationDate world host t'))
    = established (new_events t' (GetExpirationDate world host t')).
Proof.
  assert (Hprobe : forall host t',
             closes (new_events t' (GetExpirationDate world host t'))
             = established (new_events t' (GetExpirationDate world host t'))).
  { intros host t'. rewrite GetExpirationDate_run, new_events_app.
    destruct (network_dial world t' the_dialer "tcp" (dial_addr host) the_config);
      reflexivity. }
  split; [| exact Hprobe].
  apply (sweep_invariant world (fun evs => closes evs = established evs)).
  - reflexivity.
  - intros a b Ha Hb. rewrite closes_app, established_app, Ha, Hb. reflexivity.
  - reflexivity.
  - reflexivity.
  - exact Hprobe.
  - intros g msg level t'.
    apply (SendWxwork_elim world g msg level t'
             (fun _ evs => closes evs = established evs)); intros; reflexivity.
Qed.

(** X13. In a sweep the body of every response received from the webhook
    is closed, once: the trace holds as many body closings as responses. *)
Theorem response_bodies_are_closed (world : World) (config : Config) (t : Trace) :
  body_closes (new_events t (main world config t))
  = responses (new_events t (main world config t)) /\
  forall (g : WatchGroup) (msg : string) (level : Level) (t' : Trace),
    body_closes (new_events t' (SendWxwork world g msg level t'))
    = responses (new_events t' (SendWxwork world g msg level t')).
Proof.
  assert (Hsend : forall g msg level t',
             body_closes (new_events t' (SendWxwork world g msg level t'))
             = responses (new_events t' (SendWxwork world g msg level t'))).
  { intros g msg level t'.
    apply (SendWxwork_elim world g msg level t'
             (fun _ evs => body_closes evs = responses evs)); intros; reflexivity. }
  split; [| exact Hsend].
  apply (sweep_invariant world (fun evs => body_closes evs = responses evs)).
  - reflexivity.
  - intros a b Ha Hb. rewrite body_closes_app, responses_app, Ha, Hb. reflexivity.
  - reflexivity.
  - reflexivity.
  - intros host t'. rewrite GetExpirationDate_run, new_events_app.
    destruct (network_dial world t' the_dialer "tcp" (dial_addr host) the_config);
      reflexivity.
  - exact Hsend.
Qed.

(** X14. Every dial of a sweep is made over tcp to an address that names a
    port, with certificate verification switched off and without a
    deadline. *)
Theorem dials_skip_verification (world : World) (config : Config) (t : Trace) :
  Forall dial_shape (new_events t (main world config t)).
Proof.
  apply (sweep_invariant world (Forall dial_shape)).
  - constructor.
  - intros a b Ha Hb. apply Forall_app. split; assumption.
  - intros. repeat constructor.
  - intros. repeat constructor.
  - intros host t'. rewrite GetExpirationDate_run, new_events_app.
    constructor.
    + cbn. repeat split. apply dial_addr_Contains.
    + destruct (network_dial world t' the_dialer "tcp" (dial_addr host) the_config);
        repeat constructor.
  - intros g msg level t'.
    apply (SendWxwork_elim world g msg level t' (fun _ evs => Forall dial_shape evs));
      intros; repeat constructor.
Qed.

Lemma posts_come_from_sends_app (a b : Trace) :
  posts_come_from_sends a -> posts_come_from_sends b -> posts_come_from_sends (a ++ b).
Proof.
  intros Ha Hb c req Hin. rewrite posts_app in Hin. apply in_app_or in Hin.
  destruct Hin as [Hin | Hin];
    [destruct (Ha c req Hin) as (Hc & g & msg & level & Hs & Ht & Hr)
    | destruct (Hb c req Hin) as (Hc & g & msg & level & Hs & Ht & Hr)];
    (split; [exact Hc |]); exists g, msg, level; rewrite sends_app;
    (split; [apply in_or_app; auto | split; assumption]).
Qed.

(** X15. A sweep sends requests to the webhook only: every request is the
    one of a [SendWxwork] call of the sweep, for a group that has a token,
    with that call's message and a 10 second timeout; and there are at
    most as many requests as groups. *)
Theorem requests_come_from_reports (world : World) (config : Config) (t : Trace) :
  posts_come_from_sends (new_events t (main world config t)) /\
  (List.length (posts (new_events t (main world config t)))
   <= List.length (Groups config))%nat.
Proof.
  pose (P := fun evs : Trace =>
               posts_come_from_sends evs /\
               (List.length (posts evs) <= List.length (sends evs))%nat).
  assert (H : P (new_events t (main world config t))).
  { apply (sweep_invariant world P); unfold P.
    - split; [intros c req [] | cbn; lia].
    - intros a b [Ha La] [Hb Lb]. split; [apply posts_come_from_sends_app; assumption |].
      rewrite posts_app, sends_app, !length_app. lia.
    - intros. split; [intros c req [] | cbn; lia].
    - intros. split; [intros c req [] | cbn; lia].
    - intros host t'. rewrite GetExpirationDate_run, new_events_app.
      destruct (network_dial world t' the_dialer "tcp" (dial_addr host) the_config);
        (split; [intros c req [] | cbn; lia]).
    - intros g msg level t'.
      apply (SendWxwork_elim world g msg level t'
               (fun _ evs => posts_come_from_sends evs /\
                             (List.length (posts evs) <= List.length (sends evs))%nat));
        intros; (split; [| cbn; lia]); intros c req Hin; cbn in Hin;
        try contradiction;
        destruct Hin as [Hin | []]; injection Hin as <- <-;
        (split; [reflexivity |]); exists g, msg, level;
        (split; [left; reflexivity | split; [assumption | reflexivity]]). }
  destruct H as [H L]. split; [exact H |].
  destruct (main_events world config t) as (_ & _ & Hs).
  rewrite <- Hs, length_map. exact L.
Qed.

(** ** The shape of a group's evaluation *)

(** The events of a group: a log line and the first clock reading, then
    the probes, then the report. *)
Lemma main_group_split (world : World) (g : WatchGroup) (t : Trace) :
  exists (today now : Time) (probes report : Trace),
    new_events t (main_group world g t)
    = [EvLog LevelInfo "watching group:" [("name"%string, Name g)]; EvNow today]
      ++ probes ++ report /\
    map fst (dials probes) = map dial_addr (Sites g) /\
    sends probes = [] /\ nows probes = [] /\ posts probes = [] /\
    dials report = [] /\ nows report = [now] /\
    sends report = [group_report world g now
                      (group_alerts world g today (map snd (dials probes)))].
Proof.
  unfold main_group, time_Now, slog_Info, bind at 1 2, emit, ask.
  cbv beta iota zeta.
  set (today := clock world _). exists today.
  set (t1 := (t ++ _) ++ [EvNow today]).
  destruct (main_sites_run world g today (Sites g) [] t1)
    as (evs1 & Hrun & Hd & _ & Hs & Hn & Hp).
  unfold bind. rewrite Hrun. cbn [app].
  destruct (main_report_run world g
              (sites_alerts world (DayBeforeExpiration g) today (Sites g)
                 (map snd (dials evs1))) (t1 ++ evs1))
    as (now & evs2 & Hrun2 & Hn2 & Hd2 & _ & Hs2).
  exists now, evs1, evs2. rewrite Hrun2. unfold t1.
  replace ((((t ++ [EvLog LevelInfo "watching group:" [("name"%string, Name g)]])
             ++ [EvNow today]) ++ evs1) ++ evs2)
    with (t ++ [EvLog LevelInfo "watching group:" [("name"%string, Name g)];
                EvNow today] ++ evs1 ++ evs2)
    by (rewrite <- !app_assoc; reflexivity).
  rewrite new_events_app. repeat split; assumption.
Qed.

(** X16. A group is reported only after all its sites have been probed,
    and all its sites are classified against one reading of the clock,
    taken before the first probe: the events of a group are that reading,
    then the dials of all the sites, then a second reading and the one
    call of [SendWxwork]. *)
Theorem report_follows_the_probes (world : World) (g : WatchGroup) (t : Trace) :
  exists (today now : Time) (probes report : Trace),
    new_events t (main_group world g t)
    = [EvLog LevelInfo "watching group:" [("name"%string, Name g)]; EvNow today]
      ++ probes ++ report /\
    map fst (dials probes) = map dial_addr (Sites g) /\
    sends probes = [] /\ nows probes = [] /\
    dials report = [] /\ nows report = [now] /\
    map (fun s => fst (fst s)) (sends report) = [g] /\
    nows (new_events t (main_group world g t)) = [today; now].
Proof.
  destruct (main_group_split world g t)
    as (today & now & probes & report & E & Hd & Hs & Hn & _ & Hd2 & Hn2 & Hs2).
  exists today, now, probes, report. rewrite E.
  repeat split; try assumption.
  - rewrite Hs2. unfold group_report. destruct (group_alerts _ _ _ _); reflexivity.
  - rewrite !nows_app, Hn, Hn2. reflexivity.
Qed.

(** X17. The number of problems a report states is at most the number of
    sites of the group: a site adds one alert line or none. *)
Theorem alerts_at_most_sites (world : World) (g : WatchGroup) (t : Trace) :
  let evs := new_events t (main_group world g t) in
  let lines := group_alerts world g (first_now evs) (map snd (dials evs)) in
  (List.length lines <= List.length (Sites g))%nat /\
  exists now : Time, sends evs = [group_report world g now lines].
Proof.
  cbv zeta. destruct (main_group_events world g t) as (now & Hlen & _ & Hs).
  split; [| exists now; exact Hs].
  unfold group_alerts. rewrite sites_alerts_length by exact Hlen.
  etransitivity; [apply filter_length_le |]. rewrite length_map, Hlen. reflexivity.
Qed.

(** ** Start-up *)

Lemma lower_is (c : ascii) :
  Ascii.eqb (lower c) "y" = (Ascii.eqb c "y" || Ascii.eqb c "Y")%bool /\
  Ascii.eqb (lower c) "e" = (Ascii.eqb c "e" || Ascii.eqb c "E")%bool /\
  Ascii.eqb (lower c) "s" = (Ascii.eqb c "s" || Ascii.eqb c "S")%bool.
Proof.
  destruct c as [[] [] [] [] [] [] [] []]; vm_compute; repeat split; reflexivity.
Qed.

Lemma ToLower_yes (s : string) :
  String.eqb (strings_ToLower s) "yes"
  = existsb (String.eqb s)
      ["yes"; "yeS"; "yEs"; "yES"; "Yes"; "YeS"; "YEs"; "YES"]%string.
Proof.
  destruct s as [| a [| b [| c [| d rest]]]]; try reflexivity.
  - cbn [strings_ToLower String.eqb existsb].
    destruct (Ascii.eqb a "y"), (Ascii.eqb a "Y"), (Ascii.eqb (lower a) "y");
      reflexivity.
  - cbn [strings_ToLower String.eqb existsb].
    destruct (Ascii.eqb a "y"), (Ascii.eqb a "Y"), (Ascii.eqb (lower a) "y"),
             (Ascii.eqb b "e"), (Ascii.eqb b "E"), (Ascii.eqb (lower b) "e");
      reflexivity.
  - cbn [strings_ToLower String.eqb existsb].
    destruct (lower_is a) as (-> & _ & _), (lower_is b) as (_ & -> & _),
             (lower_is c) as (_ & _ & ->).
    destruct (Ascii.eqb a "y"), (Ascii.eqb a "Y"), (Ascii.eqb b "e"),
             (Ascii.eqb b "E"), (Ascii.eqb c "s"), (Ascii.eqb c "S"); reflexivity.
  - cbn [strings_ToLower String.eqb existsb].
    destruct (Ascii.eqb a "y"), (Ascii.eqb a "Y"), (Ascii.eqb (lower a) "y"),
             (Ascii.eqb b "e"), (Ascii.eqb b "E"), (Ascii.eqb (lower b) "e"),
             (Ascii.eqb c "s"), (Ascii.eqb c "S"), (Ascii.eqb (lower c) "s");
      reflexivity.
Qed.

Lemma confirms_iff (input : string) :
  confirms input = true <->
  In input ["y"; "Y"; "yes"; "yeS"; "yEs"; "yES"; "Yes"; "YeS"; "YEs"; "YES"]%string.
Proof.
  split.
  - unfold confirms. rewrite ToLower_yes, !orb_true_iff, !String.eqb_eq, existsb_exists.
    intros [[H | H] | (x & Hin & Hx)].
    + left. symmetry. exact H.
    + right. left. symmetry. exact H.
    + apply String.eqb_eq in Hx. subst x. right. right. exact Hin.
  - intros H. cbn [In] in H.
    repeat (destruct H as [<- | H]; [reflexivity |]). contradiction.
Qed.

Lemma core_events_inr (l : Trace) : core_events (map inr l) = l.
Proof.
  unfold core_events. induction l as [| e l IH]; [reflexivity |].
  cbn [map flat_map app]. f_equal. exact IH.
Qed.

Lemma core_events_inl (l : list OsEvent) : core_events (map inl l) = [].
Proof. induction l as [| e l IH]; [reflexivity | exact IH]. Qed.

Lemma os_events_inl (l : list OsEvent) : os_events (map inl l) = l.
Proof.
  unfold os_events. induction l as [| e l IH]; [reflexivity |].
  cbn [map flat_map app]. f_equal. exact IH.
Qed.

Lemma os_events_inr (l : Trace) : os_events (map inr l) = [].
Proof. induction l as [| e l IH]; [reflexivity | exact IH]. Qed.

(** X18. With the flag [-g] nothing is probed and nothing is notified,
    whatever the other flag says: the process has no event of the sweep,
    reads no configuration, does not exit with a code, and writes at most
    one file, [config.example.toml] with the embedded template and mode
    0644. *)
Theorem generate_never_sweeps (host : Host) (world : World) (conf : string) :
  let p := main_entry host world true conf in
  core_events p = [] /\
  exits (os_events p) = [] /\
  (List.length (writes (os_events p)) <= 1)%nat /\
  (forall w, In w (writes (os_events p)) ->
             w = ("config.example.toml"%string, defaultTemplate host, 420)) /\
  Forall (fun e => match e with
                   | OsDecodeFile _ _ => False
                   | OsStat name _ => name = "config.example.toml"%string
                   | _ => True
                   end) (os_events p).
Proof.
  cbv zeta. unfold main_entry. rewrite core_events_inl, os_events_inl.
  unfold main_generate, write_example.
  destruct (os_Stat host "config.example.toml") as [[[]] |]; cbn [negb];
    try destruct (confirms (stdin_word host)); cbn;
    repeat split; try lia; try (repeat constructor; fail);
    intros w Hw; try contradiction; destruct Hw as [<- | []]; reflexivity.
Qed.

(** X19. [-g] asks before it overwrites, and only then: when
    [config.example.toml] exists and is a regular file it reads one answer
    and writes the file exactly when the answer is [y], [Y] or [yes] in any
    mix of cases (any other answer, the empty one included, leaves the file
    alone); when the file does not exist, or is a directory, it writes
    without asking. *)
Theorem generate_writes_iff (host : Host) :
  let answers := ["y"; "Y"; "yes"; "yeS"; "yEs"; "yES"; "Yes"; "YeS"; "YEs"; "YES"]%string in
  let regular := match os_Stat host "config.example.toml" with
                 | Some info => negb (IsDir info)
                 | None => false
                 end in
  prompts (main_generate host) = (if regular then [stdin_word host] else []) /\
  (writes (main_generate host)
   = [("config.example.toml"%string, defaultTemplate host, 420)]
   <-> regular = false \/ In (stdin_word host) answers) /\
  (writes (main_generate host) = []
   <-> regular = true /\ ~ In (stdin_word host) answers).
Proof.
  intros answers regular. unfold regular, main_generate, write_example.
  pose proof (confirms_iff (stdin_word host)) as Hc. fold answers in Hc.
  destruct (os_Stat host "config.example.toml") as [[[]] |]; cbn [negb].
  - split; [reflexivity | split; split].
    + intros _. left. reflexivity.
    + intros _. reflexivity.
    + intros Habs. discriminate Habs.
    + intros [Habs _]. discriminate Habs.
  - destruct (confirms (stdin_word host)); cbn.
    + split; [reflexivity | split; split].
      * intros _. right. apply Hc. reflexivity.
      * intros _. reflexivity.
      * intros Habs. discriminate Habs.
      * intros [_ Hn]. exfalso. apply Hn, Hc. reflexivity.
    + split; [reflexivity | split; split].
      * intros Habs. discriminate Habs.
      * intros [Habs | Hin]; [discriminate Habs | apply Hc in Hin; discriminate Hin].
      * intros _. split; [reflexivity |]. intros Hin. apply Hc in Hin. discriminate Hin.
      * intros _. reflexivity.
  - split; [reflexivity | split; split].
    + intros _. left. reflexivity.
    + intros _. reflexivity.
    + intros Habs. discriminate Habs.
    + intros [Habs _]. discriminate Habs.
Qed.

(** The three answers of the examples: one confirms, two do not. *)
Example generate_answers :
  writes (main_generate (Machine.answering "yEs"))
  = [("config.example.toml"%string, "version = 1"%string, 420)] /\
  writes (main_generate (Machine.answering "n")) = [] /\
  writes (main_generate (Machine.answering "")) = [].
Proof. repeat split; reflexivity. Qed.

(** X20. Without [-g] the sweep runs exactly when the configuration file
    exists, is no directory and decodes: the process then does what the
    sweep does on the decoded configuration and ends without an exit code;
    otherwise it logs one error and exits with code 1 before anything is
    dialled or sent.  It never writes a file. *)
Theorem sweep_needs_a_configuration (host : Host) (world : World) (conf : string) :
  let p := main_entry host world false conf in
  writes (os_events p) = [] /\
  (forall (info : FileInfo) (config : Config),
     os_Stat host conf = Some info -> IsDir info = false ->
     toml_DecodeFile host conf = inl config ->
     core_events p = snd (main world config []) /\ exits (os_events p) = []) /\
  (os_Stat host conf = None \/
   (exists info, os_Stat host conf = Some info /\ IsDir info = true) \/
   (exists err, toml_DecodeFile host conf = inr err) ->
   exits (os_events p) = [1] /\
   dials (core_events p) = [] /\ sends (core_events p) = [] /\
   posts (core_events p) = [] /\ List.length (core_events p) = 1%nat).
Proof.
  cbv zeta. unfold main_entry. split; [| split].
  - destruct (os_Stat host conf) as [[[]] |]; try reflexivity.
    destruct (toml_DecodeFile host conf) as [config | err]; [| reflexivity].
    cbn. rewrite os_events_inr. reflexivity.
  - intros info config Hs Hd Hc. rewrite Hs, Hd, Hc. cbn.
    rewrite core_events_inr, os_events_inr. split; reflexivity.
  - intros [Hn | [(info & Hs & Hd) | (err & Hc)]].
    + rewrite Hn. repeat split; reflexivity.
    + rewrite Hs, Hd. repeat split; reflexivity.
    + destruct (os_Stat host conf) as [[[]] |]; try (repeat split; reflexivity).
      rewrite Hc. repeat split; reflexivity.
Qed.

Lemma sweep_needs_a_configuration_witness :
  core_events (main_entry (Machine.answering "") Scenario.world false "config.toml")
  = snd (main Scenario.world Scenario.config []) /\
  exits (os_events (main_entry (Machine.answering "") Scenario.world false "conf.d"))
  = [1] /\
  exits (os_events (main_entry (Machine.answering "") Scenario.world false "missing.toml"))
  = [1].
Proof.
  split; [| split].
  - apply (proj1 (proj2 (sweep_needs_a_configuration (Machine.answering "")
                           Scenario.world "config.toml"))
             {| IsDir := false |} Scenario.config); reflexivity.
  - apply (proj2 (proj2 (sweep_needs_a_configuration (Machine.answering "")
                           Scenario.world "conf.d"))).
    right. left. exists {| IsDir := true |}. split; reflexivity.
  - apply (proj2 (proj2 (sweep_needs_a_configuration (Machine.answering "")
                           Scenario.world "missing.toml"))).
    left. reflexivity.
Defined.

(** ** The redline, in time *)

Lemma Sub_ge (expire today : Time) (d : Z) :
  d <= 9223372036854775807 -> d <= since expire today -> d <= Sub expire today.
Proof.
  intros Hd H. unfold Sub. destruct TimeFacts.Duration_range as [Emin Emax].
  destruct (Z.ltb_spec (since expire today) minDuration);
    [| destruct (Z.ltb_spec maxDuration (since expire today))];
    rewrite ?Emin, ?Emax in *; lia.
Qed.

Lemma Sub_le_bound (expire today : Time) (d : Z) :
  -9223372036854775808 <= d -> since expire today <= d -> Sub expire today <= d.
Proof.
  intros Hd H. unfold Sub. destruct TimeFacts.Duration_range as [Emin Emax].
  destruct (Z.ltb_spec (since expire today) minDuration);
    [| destruct (Z.ltb_spec maxDuration (since expire today))];
    rewrite ?Emin, ?Emax in *; lia.
Qed.

(** X21. For a redline of R days, 0 <= R <= 106750: a certificate that
    expires within the next R times 24 hours always gets the "expiring
    soon" line, and one that has R + 1 times 24 hours or more left never
    gets a line. *)
Theorem redline_in_hours (world : World) (group : WatchGroup) (site : string)
    (expire today : Time) (alerts : list string) :
  0 <= DayBeforeExpiration group <= 106750 ->
  (0 <= since expire today <= DayBeforeExpiration group * (24 * Hour) ->
   main_classify world group site expire (daysLeft expire today) alerts
   = alerts ++ [line_soon world site (daysLeft expire today) expire]) /\
  ((DayBeforeExpiration group + 1) * (24 * Hour) <= since expire today ->
   main_classify world group site expire (daysLeft expire today) alerts = alerts).
Proof.
  intros HR. rewrite DaysFacts.Day_value, main_classify_cases.
  set (R := DayBeforeExpiration group) in *.
  destruct TimeFacts.Duration_range as [Emin Emax].
  pose proof (Sub_range expire today) as [Slo Shi]. rewrite Emin in Slo. rewrite Emax in Shi.
  split; intros Hs.
  - assert (H0 : 0 <= daysLeft expire today).
    { rewrite <- (daysLeft_same today). apply daysLeft_le. unfold since in *. lia. }
    assert (H1 : daysLeft expire today <= R).
    { rewrite daysLeft_days_of, <- (days_of_day R) by lia.
      apply days_of_mono; [exact Slo | lia |]. apply Sub_le_bound; lia. }
    destruct (Z.ltb_spec (daysLeft expire today) 0); [lia |].
    destruct (Z.leb_spec (daysLeft expire today) R); [reflexivity | lia].
  - assert (H1 : R + 1 <= daysLeft expire today).
    { rewrite daysLeft_days_of, <- (days_of_day (R + 1)) at 1 by lia.
      apply days_of_mono; [lia | exact Shi |]. apply Sub_ge; lia. }
    destruct (Z.ltb_spec (daysLeft expire today) 0); [lia |].
    destruct (Z.leb_spec (daysLeft expire today) R); [lia | reflexivity].
Qed.

Lemma redline_in_hours_witness :
  main_classify Scenario.world Scenario.prod "c.example" (Scenario.days_after 8)
                (daysLeft (Scenario.days_after 8) Scenario.new_year) [] = [] /\
  main_classify Scenario.world Scenario.prod "a.example" (Scenario.days_after 7)
                (daysLeft (Scenario.days_after 7) Scenario.new_year) []
  = [line_soon Scenario.world "a.example"
       (daysLeft (Scenario.days_after 7) Scenario.new_year) (Scenario.days_after 7)].
Proof.
  split.
  - apply (proj2 (redline_in_hours Scenario.world Scenario.prod "c.example"
                    (Scenario.days_after 8) Scenario.new_year []
                    ltac:(vm_compute; split; discriminate))).
    vm_compute. discriminate.
  - apply (proj1 (redline_in_hours Scenario.world Scenario.prod "a.example"
                    (Scenario.days_after 7) Scenario.new_year []
                    ltac:(vm_compute; split; discriminate))).
    vm_compute. split; discriminate.
Defined.

(** * The days left, exactly *)

(** ** Rounding next to a binary64 value *)

Module Float64Ties.

Import Float64 Float64Facts.
Local Open Scope Q_scope.

Lemma ilog2_unique (x : Q) (n : Z) : 2 ^ n <= x -> x < 2 ^ (n + 1) -> ilog2 x = n.
Proof.
  intros Hlo Hhi. assert (Hx : 0 < x) by (pose proof (pow2_pos n); lra).
  destruct (ilog2_spec x Hx) as [Ilo Ihi].
  assert (H1 : 2 ^ ilog2 x < 2 ^ (n + 1)) by lra.
  assert (H2 : 2 ^ n < 2 ^ (ilog2 x + 1)) by lra.
  apply pow2_lt_inv in H1, H2. lia.
Qed.

Lemma pow2_scale (k : Z) (a e : Z) :
  (0 <= a)%Z -> inject_Z (k * 2 ^ a) * 2 ^ e == inject_Z k * 2 ^ (a + e).
Proof.
  intros Ha. rewrite inject_Z_mult, pow2_inject, pow2_add by exact Ha. ring.
Qed.

(** A value with a 53-bit significand [k] at the exponent [e]: every [x]
    from it up to the next one is rounded at that exponent. *)
Lemma cexp_binade (k e : Z) (x : Q) :
  (2 ^ 52 <= k < 2 ^ 53)%Z -> (emin <= e)%Z ->
  inject_Z k * 2 ^ e <= x -> x < inject_Z (k + 1) * 2 ^ e -> cexp x = e.
Proof.
  intros Hk He Hlo Hhi. pose proof (pow2_pos e) as Hp.
  assert (L : 2 ^ (52 + e) <= x).
  { rewrite pow2_add, <- (pow2_inject 52) by lia.
    eapply Qle_trans; [| exact Hlo].
    apply Qmult_le_compat_r; [rewrite <- Zle_Qle; lia | lra]. }
  assert (U : x < 2 ^ (52 + e + 1)).
  { replace (52 + e + 1)%Z with (53 + e)%Z by lia.
    rewrite pow2_add, <- (pow2_inject 53) by lia.
    eapply Qlt_le_trans; [exact Hhi |].
    apply Qmult_le_compat_r; [rewrite <- Zle_Qle; lia | lra]. }
  unfold cexp. rewrite (ilog2_unique x (52 + e) L U). unfold prec. lia.
Qed.

Lemma Qfloor_between (y : Q) (k : Z) :
  inject_Z k <= y -> y < inject_Z (k + 1) -> Qfloor y = k.
Proof.
  intros Hlo Hhi.
  pose proof (Qfloor_resp_le _ _ Hlo) as H1. rewrite Qfloor_Z in H1.
  pose proof (Qfloor_le y) as H2.
  assert (H3 : inject_Z (Qfloor y) < inject_Z (k + 1)) by lra.
  rewrite <- Zlt_Qlt in H3. lia.
Qed.

Lemma rne_below_half (y : Q) (k : Z) :
  inject_Z k <= y -> y < inject_Z k + (1 # 2) -> rne y = k.
Proof.
  intros Hlo Hhi.
  assert (F : Qfloor y = k).
  { apply Qfloor_between; [exact Hlo |]. rewrite inject_Z_plus.
    change (inject_Z 1) with 1. lra. }
  unfold rne. rewrite F.
  destruct (Qcompare_spec (y - inject_Z k) (1 # 2)) as [E | L | G];
    [exfalso; lra | reflexivity | exfalso; lra].
Qed.

Lemma rne_half_odd (y : Q) (k : Z) :
  y == inject_Z k + (1 # 2) -> Z.even k = false -> rne y = (k + 1)%Z.
Proof.
  intros Hy Hodd.
  assert (F : Qfloor y = k).
  { apply Qfloor_between; [lra |]. rewrite inject_Z_plus.
    change (inject_Z 1) with 1. lra. }
  unfold rne. rewrite F, Hodd.
  destruct (Qcompare_spec (y - inject_Z k) (1 # 2)) as [E | L | G];
    [reflexivity | exfalso; lra | reflexivity].
Qed.

Lemma round_of_pos (x : Q) : 0 < x -> round x = round_pos x.
Proof.
  intros Hx. unfold round.
  destruct (Qcompare_spec x 0) as [E | L | G]; [exfalso; lra | exfalso; lra | reflexivity].
Qed.

(** Below the midpoint to the next value, rounding does not go up. *)
Lemma round_down (k e : Z) (x : Q) :
  (2 ^ 52 <= k < 2 ^ 53)%Z -> (emin <= e)%Z ->
  x < (inject_Z k + (1 # 2)) * 2 ^ e -> round x <= inject_Z k * 2 ^ e.
Proof.
  intros Hk He Hx. pose proof (pow2_pos e) as Hp.
  destruct (Qlt_le_dec (inject_Z k * 2 ^ e) x) as [Above | Below].
  - assert (H0 : 0 < x).
    { eapply Qle_lt_trans; [| exact Above].
      apply Qmult_le_0_compat; [| lra].
      change 0 with (inject_Z 0). rewrite <- Zle_Qle. lia. }
    assert (Hc : cexp x = e).
    { apply (cexp_binade k); try assumption; [lra |].
      rewrite inject_Z_plus. change (inject_Z 1) with 1.
      eapply Qlt_le_trans; [exact Hx |]. apply Qmult_le_compat_r; lra. }
    rewrite (round_of_pos x H0), round_pos_value, Hc.
    assert (Hr : rne (x / 2 ^ e) = k).
    { apply rne_below_half.
      - apply Qle_shift_div_l; [exact Hp | lra].
      - apply Qlt_shift_div_r; [exact Hp | exact Hx]. }
    rewrite Hr. apply Qle_refl.
  - rewrite <- (round_exact k e) by (unfold prec; lia || assumption).
    apply round_le. exact Below.
Qed.

(** At the midpoint above an odd significand, rounding goes up. *)
Lemma round_tie_up (k e : Z) (x : Q) :
  (2 ^ 52 <= k < 2 ^ 53)%Z -> Z.even k = false -> (emin <= e)%Z ->
  (inject_Z k + (1 # 2)) * 2 ^ e <= x -> inject_Z (k + 1) * 2 ^ e <= round x.
Proof.
  intros Hk Hodd He Hx. pose proof (pow2_pos e) as Hp.
  set (m := (inject_Z k + (1 # 2)) * 2 ^ e) in *.
  assert (Hm : inject_Z (k + 1) * 2 ^ e == round m).
  { assert (Hk0 : 0 <= inject_Z k)
      by (change 0 with (inject_Z 0); rewrite <- Zle_Qle; lia).
    assert (H0 : 0 < m) by (unfold m; apply Qmult_lt_0_compat; lra).
    assert (Hc : cexp m = e).
    { apply (cexp_binade k); try assumption; unfold m.
      - apply Qmult_le_compat_r; lra.
      - rewrite inject_Z_plus. change (inject_Z 1) with 1.
        apply Qmult_lt_compat_r; lra. }
    rewrite (round_of_pos m H0), round_pos_value, Hc.
    assert (Hr : rne (m / 2 ^ e) = (k + 1)%Z).
    { apply rne_half_odd; [| exact Hodd]. unfold m. field. lra. }
    rewrite Hr. reflexivity. }
  rewrite Hm. apply round_le. exact Hx.
Qed.

Lemma to_int_lt (x : Q) (M : Z) : (0 < M)%Z -> x < inject_Z M -> (to_int x < M)%Z.
Proof.
  intros HM. destruct x as [a b]. unfold Qlt, to_int, inject_Z. cbn [Qnum Qden].
  intros H. destruct (Z.le_gt_cases 0 a) as [P | N].
  - apply Z.quot_lt_upper_bound; lia.
  - rewrite <- (Z.opp_involutive a), Z.quot_opp_l by lia.
    pose proof (Z.quot_pos (- a) (Zpos b) ltac:(lia) ltac:(lia)). lia.
Qed.

End Float64Ties.

(** ** The days left of a distance and of its opposite *)

Module OppFacts.

Import Float64 Float64Facts.

Lemma round_opp (x : Q) : (round (- x) == - round x)%Q.
Proof.
  unfold round.
  destruct (Qcompare_spec x 0) as [E | L | G];
  destruct (Qcompare_spec (- x) 0) as [E' | L' | G']; try (exfalso; lra).
  - reflexivity.
  - rewrite Qopp_involutive. reflexivity.
  - apply Qopp_comp. apply Qle_antisym; apply round_pos_le; lra.
Qed.

Lemma round_opp_eq (x y : Q) : (x == - y)%Q -> (round x == - round y)%Q.
Proof. intros H. rewrite (DaysFacts.round_eq _ _ H). apply round_opp. Qed.

Lemma of_int_opp (z : Z) : (of_int (- z) == - of_int z)%Q.
Proof. unfold of_int. apply round_opp_eq. rewrite inject_Z_opp. reflexivity. Qed.

Lemma to_int_opp (x : Q) : to_int (- x)%Q = - to_int x.
Proof.
  destruct x as [a b]. unfold to_int. cbn [Qopp Qnum Qden]. apply Z.quot_opp_l. lia.
Qed.

Lemma Hours_opp (d : Z) : (Hours (- d)%Z == - Hours d)%Q.
Proof.
  rewrite !TimeFacts.Hours_unfold.
  rewrite Z.quot_opp_l, Z.rem_opp_l by (rewrite TimeFacts.Hour_value; lia).
  unfold add. apply round_opp_eq. rewrite of_int_opp.
  unfold hour_fraction, div.
  rewrite (round_opp_eq (of_int (- Z.rem d Hour)%Z / of_int (60 * 60 * 1000000000)%Z)%Q
                        (of_int (Z.rem d Hour) / of_int (60 * 60 * 1000000000)%Z)%Q).
  - ring.
  - rewrite of_int_opp. unfold Qdiv. ring.
Qed.

Lemma days_of_opp (d : Z) : days_of (- d) = - days_of d.
Proof.
  unfold days_of. rewrite <- to_int_opp. apply DaysFacts.to_int_eq.
  unfold div. apply round_opp_eq. rewrite Hours_opp. unfold Qdiv. ring.
Qed.

End OppFacts.

(** ** The window before a whole number of days in which [Hours()] rounds up *)

Module WindowFacts.

Import Float64 Float64Facts Float64Ties.

Lemma small_exponent (j : Z) :
  0 <= j <= 21 -> j = 0 \/ j = 1 \/ j = 2 \/ j = 3 \/ j = 4 \/ j = 5 \/ j = 6 \/ j = 7 \/ j = 8 \/ j = 9 \/ j = 10 \/ j = 11 \/ j = 12 \/ j = 13 \/ j = 14 \/ j = 15 \/ j = 16 \/ j = 17 \/ j = 18 \/ j = 19 \/ j = 20 \/ j = 21.
Proof. lia. Qed.

(** No whole number of nanoseconds falls between the two bounds of the
    window. *)
Lemma no_gap (j g : Z) :
  0 <= j <= 21 ->
  3600000000000 * 2 ^ j < g * 2 ^ 53 -> 3600000000000 * (2 ^ j + 1) <= g * 2 ^ 53.
Proof.
  intros Hj. change (2 ^ 53) with 9007199254740992.
  destruct (small_exponent j Hj) as
    [E|[E|[E|[E|[E|[E|[E|[E|[E|[E|[E|[E|[E|[E|[E|[E|[E|[E|[E|[E|[E|E]]]]]]]]]]]]]]]]]]]]];
    subst j; intros H; lia.
Qed.

(** 24 times a whole number is no power of two. *)
Lemma not_a_power (j M : Z) : 0 <= j <= 21 -> 24 * M <> 2 ^ j.
Proof.
  intros Hj.
  destruct (small_exponent j Hj) as
    [E|[E|[E|[E|[E|[E|[E|[E|[E|[E|[E|[E|[E|[E|[E|[E|[E|[E|[E|[E|[E|E]]]]]]]]]]]]]]]]]]]]];
    subst j; intros H; lia.
Qed.

End WindowFacts.

(** ** Binary64 values next to a whole number of hours *)

Module WindowBounds.

Import Float64 Float64Facts Float64Ties.

Lemma log2_hours (N : Z) :
  0 <= N <= 106751 ->
  4 <= Z.log2 (24 * (N + 1)) <= 21 /\
  2 ^ Z.log2 (24 * (N + 1)) < 24 * (N + 1) < 2 ^ (Z.log2 (24 * (N + 1)) + 1).
Proof.
  intros HN. set (T := 24 * (N + 1)). assert (HT : 24 <= T <= 2562048) by (unfold T; lia).
  destruct (Z.log2_spec T ltac:(lia)) as [Lo Hi].
  set (j := Z.log2 T) in *. replace (Z.succ j) with (j + 1) in Hi by lia.
  assert (H21 : j < 22).
  { apply Z.log2_lt_pow2; [lia |]. change (2 ^ 22) with 4194304. lia. }
  assert (H4 : 4 <= j).
  { apply Z.log2_le_pow2; [lia |]. change (2 ^ 4) with 16. lia. }
  split; [lia |]. split; [| exact Hi].
  pose proof (WindowFacts.not_a_power j (N + 1) ltac:(lia)) as Hne. fold T in Hne. lia.
Qed.

Lemma log2_days (M : Z) :
  1 <= M -> Z.log2 M + 4 <= Z.log2 (24 * M).
Proof.
  intros HM. destruct (Z.log2_spec M ltac:(lia)) as [Lo _].
  apply Z.log2_le_pow2; [lia |].
  rewrite Z.pow_add_r by (try apply Z.log2_nonneg; lia).
  change (2 ^ 4) with 16. lia.
Qed.

(** The significand of the last binary64 value below a whole number [T]
    that is no power of two. *)
Lemma significand_bounds (T j : Z) :
  0 <= j <= 52 -> 2 ^ j < T < 2 ^ (j + 1) ->
  2 ^ 52 <= T * 2 ^ (52 - j) - 1 < 2 ^ 53.
Proof.
  intros Hj [Lo Hi].
  assert (HV : 0 < 2 ^ (52 - j)) by (apply Z.pow_pos_nonneg; lia).
  assert (E1 : 2 ^ j * 2 ^ (52 - j) = 2 ^ 52)
    by (rewrite <- Z.pow_add_r by lia; f_equal; lia).
  assert (E2 : 2 ^ (j + 1) * 2 ^ (52 - j) = 2 ^ 53)
    by (rewrite <- Z.pow_add_r by lia; f_equal; lia).
  set (V := 2 ^ (52 - j)) in *. nia.
Qed.

Lemma scaled_value (T j : Z) (c : Q) :
  0 <= j <= 52 ->
  ((inject_Z (T * 2 ^ (52 - j) - 1) + c) * 2 ^ (j - 52)
   == inject_Z T - (1 - c) * 2 ^ (j - 52))%Q.
Proof.
  intros Hj. replace (T * 2 ^ (52 - j) - 1) with (T * 2 ^ (52 - j) + -1) by lia.
  rewrite inject_Z_plus, inject_Z_mult, pow2_inject by lia.
  assert (P : (2 ^ (52 - j) * 2 ^ (j - 52) == 1)%Q).
  { rewrite <- pow2_add. replace (52 - j + (j - 52)) with 0 by lia. reflexivity. }
  change (inject_Z (-1)) with (- (1))%Q.
  set (V := (2 ^ (52 - j))%Q) in *. set (U := (2 ^ (j - 52))%Q) in *.
  transitivity (inject_Z T * (V * U) - (1 - c) * U)%Q; [ring | rewrite P; ring].
Qed.

Lemma half_ulp (j : Z) :
  0 <= j -> ((1 # 2) * 2 ^ (j - 52) == inject_Z (2 ^ j) * (1 # 9007199254740992))%Q.
Proof.
  intros Hj. rewrite pow2_inject by exact Hj.
  replace (j - 52) with (j + -52) by lia. rewrite pow2_add.
  change (2 ^ (-52))%Q with (1 # 4503599627370496)%Q.
  set (A := (2 ^ j)%Q). unfold Qeq, Qmult. cbn [Qnum Qden]. lia.
Qed.

Lemma round_53 (k : Z) :
  - 2 ^ 53 < k < 2 ^ 53 ->
  (round (k # 9007199254740992) == (k # 9007199254740992))%Q.
Proof.
  intros Hk. assert (E : ((k # 9007199254740992) == inject_Z k * 2 ^ (-53))%Q).
  { change (2 ^ (-53))%Q with (1 # 9007199254740992)%Q.
    unfold Qeq, Qmult, inject_Z. cbn [Qnum Qden]. lia. }
  rewrite (DaysFacts.round_eq _ _ E), round_exact; [symmetry; exact E | exact Hk |].
  unfold emin. lia.
Qed.

Lemma hour_fraction_ratio (n : Z) :
  - 2 ^ 53 < n < 2 ^ 53 ->
  (hour_fraction n == round (n # 3600000000000))%Q.
Proof.
  intros Hn. unfold hour_fraction, div. apply DaysFacts.round_eq.
  unfold of_int at 1. rewrite (round_int n Hn).
  change (of_int (60 * 60 * 1000000000)) with (inject_Z 3600000000000).
  symmetry. apply (Qmake_Qdiv n 3600000000000).
Qed.

End WindowBounds.

(** ** [Hours()] and the days left just before a whole number of days *)

Module WindowDays.

Import Float64 Float64Facts Float64Ties TimeFacts WindowBounds.

Lemma below_one (a : Z) :
  (((9007199254740992 - a - 1) # 9007199254740992)
   == 1 - (inject_Z a + 1) * (1 # 9007199254740992))%Q.
Proof.
  unfold Qeq, Qminus, Qplus, Qmult, Qopp, inject_Z. cbn [Qnum Qden]. lia.
Qed.

Lemma below_one_tie (a : Z) :
  (((9007199254740992 - a) # 9007199254740992)
   == 1 - inject_Z a * (1 # 9007199254740992))%Q.
Proof.
  unfold Qeq, Qminus, Qplus, Qmult, Qopp, inject_Z. cbn [Qnum Qden]. lia.
Qed.

(** The last hour before a whole number of days. *)
Lemma last_hour (N g : Z) :
  0 <= N -> 1 <= g < Hour ->
  Z.quot ((N + 1) * (24 * Hour) - g) Hour = 24 * (N + 1) - 1 /\
  Z.rem ((N + 1) * (24 * Hour) - g) Hour = Hour - g.
Proof.
  rewrite Hour_value. intros HN Hg. split; symmetry.
  - apply (Z.quot_unique _ _ _ (3600000000000 - g)); lia.
  - apply (Z.rem_unique _ _ (24 * (N + 1) - 1)); lia.
Qed.

Lemma Hours_below_day (N g : Z) :
  0 <= N <= 106751 -> 1 <= g <= 24 * Hour ->
  Hour * (2 ^ Z.log2 (24 * (N + 1)) + 1) <= g * 2 ^ 53 ->
  (Hours ((N + 1) * (24 * Hour) - g)%Z
   <= inject_Z (24 * (N + 1))%Z - 2 ^ (Z.log2 (24 * (N + 1)) - 52)%Z)%Q.
Proof.
  intros HN Hg Hw. destruct (log2_hours N HN) as [Hj HT].
  set (T := 24 * (N + 1)) in *. set (j := Z.log2 T) in *.
  assert (HU : (2 ^ (j - 52) <= 1)%Q).
  { change 1%Q with (2 ^ 0)%Q. apply pow2_le. lia. }
  destruct (Z_lt_le_dec g Hour) as [Hs | Hl].
  - destruct (last_hour N g ltac:(lia) ltac:(lia)) as [Eq Er]. fold T in Eq.
    rewrite Hours_unfold, Eq, Er. unfold add.
    pose proof (significand_bounds T j ltac:(lia) HT) as Hk.
    pose proof (scaled_value T j 0 ltac:(lia)) as S0.
    pose proof (scaled_value T j (1 # 2) ltac:(lia)) as S2.
    pose proof (half_ulp j ltac:(lia)) as Hh.
    set (k := T * 2 ^ (52 - j) - 1) in *.
    assert (E1 : (of_int (T - 1) == inject_Z T - 1)%Q).
    { unfold of_int. rewrite round_int.
      - replace (T - 1) with (T + -1) by lia. rewrite inject_Z_plus. reflexivity.
      - unfold prec. change (2 ^ 53) with 9007199254740992. unfold T. lia. }
    assert (E2 : (hour_fraction (Hour - g)
                  <= 1 - (inject_Z (2 ^ j) + 1) * (1 # 9007199254740992))%Q).
    { rewrite hour_fraction_ratio
        by (rewrite Hour_value in *; change (2 ^ 53) with 9007199254740992; lia).
      rewrite <- below_one. rewrite <- round_53.
      - apply round_le. rewrite Hour_value in *. unfold Qle. cbn [Qnum Qden].
        change (2 ^ 53) with 9007199254740992 in Hw. lia.
      - change (2 ^ 53) with 9007199254740992.
        assert (0 < 2 ^ j) by (apply Z.pow_pos_nonneg; lia).
        assert (2 ^ j <= 2 ^ 21) by (apply Z.pow_le_mono_r; lia).
        change (2 ^ 21) with 2097152 in *. lia. }
    apply Qle_trans with (inject_Z k * 2 ^ (j - 52))%Q.
    + apply round_down; [exact Hk | unfold emin; lia |].
      rewrite S2. revert E1 E2 Hh.
      generalize (of_int (T - 1)) (hour_fraction (Hour - g)) (inject_Z T)
                 (inject_Z (2 ^ j)) (2 ^ (j - 52))%Q.
      intros a b c A U E1 E2 Hh. lra.
    + revert S0. generalize (inject_Z k) (inject_Z T) (2 ^ (j - 52))%Q.
      intros a c U S0.
      assert (E : (a * U == c - U)%Q)
        by (transitivity ((a + 0) * U)%Q; [ring | rewrite S0; ring]).
      rewrite E. apply Qle_refl.
  - apply Qle_trans with (inject_Z (T - 1)).
    + assert (Hr : minDuration <= (T - 1) * Hour <= maxDuration).
      { destruct Duration_range as [Emin Emax]. rewrite Emin, Emax, Hour_value.
        unfold T. lia. }
      rewrite <- (DaysFacts.Hours_whole (T - 1) Hr).
      destruct Duration_range as [Emin Emax]. rewrite Emin, Emax in Hr.
      apply Hours_le; rewrite ?Emin, ?Emax; rewrite Hour_value in *; unfold T in *; lia.
    + replace (T - 1) with (T + -1) by lia. rewrite inject_Z_plus.
      change (inject_Z (-1)) with (- (1))%Q.
      revert HU. generalize (inject_Z T) (2 ^ (j - 52))%Q. intros c U HU. lra.
Qed.

(** Outside the rounding window the days left stay below the next day. *)
Lemma days_of_upper (N g : Z) :
  0 <= N <= 106751 -> 1 <= g <= 24 * Hour ->
  Hour * (2 ^ Z.log2 (24 * (N + 1)) + 1) <= g * 2 ^ 53 ->
  days_of ((N + 1) * (24 * Hour) - g) <= N.
Proof.
  intros HN Hg Hw. pose proof (Hours_below_day N g HN Hg Hw) as HH.
  destruct (log2_hours N HN) as [Hj HT].
  pose proof (log2_days (N + 1) ltac:(lia)) as Hjj.
  destruct (Z.log2_spec (N + 1) ltac:(lia)) as [Lo Hi].
  pose proof (Z.log2_nonneg (N + 1)) as H0.
  set (M := N + 1) in *. set (j := Z.log2 (24 * M)) in *. set (i := Z.log2 M) in *.
  replace (Z.succ i) with (i + 1) in Hi by lia.
  assert (HS : (16 * 2 ^ (i - 52) <= 2 ^ (j - 52))%Q).
  { change 16%Q with (2 ^ 4)%Q. rewrite <- pow2_add. apply pow2_le. lia. }
  assert (ET : (inject_Z (24 * M) == 24 * inject_Z M)%Q)
    by (rewrite inject_Z_mult; reflexivity).
  pose proof (pow2_pos (i - 52)) as HSpos.
  cut (days_of (M * (24 * Hour) - g) < M); [lia |].
  unfold days_of, div. change (of_int 24) with 24%Q.
  apply to_int_lt; [lia |].
  assert (Hy : (Hours (M * (24 * Hour) - g)%Z / 24
                <= inject_Z M - (2 # 3) * 2 ^ (i - 52))%Q).
  { revert HH HS ET HSpos.
    generalize (Hours (M * (24 * Hour) - g)%Z) (inject_Z (24 * M)) (inject_Z M)
               (2 ^ (i - 52))%Q (2 ^ (j - 52))%Q.
    intros h t m S U HH HS ET HSpos.
    apply Qle_shift_div_r; [reflexivity | lra]. }
  destruct (Z.eq_dec M (2 ^ i)) as [Ep | Np].
  - assert (Em : (inject_Z M == 4503599627370496 * 2 ^ (i - 52))%Q).
    { rewrite Ep, pow2_inject by lia. change 4503599627370496%Q with (2 ^ 52)%Q.
      rewrite <- pow2_add. replace (52 + (i - 52)) with i by lia. reflexivity. }
    assert (Eh : (2 ^ (i - 53) == (1 # 2) * 2 ^ (i - 52))%Q).
    { change (1 # 2)%Q with (2 ^ (-1))%Q. rewrite <- pow2_add.
      replace (-1 + (i - 52)) with (i - 53) by lia. reflexivity. }
    apply Qle_lt_trans with (inject_Z 9007199254740991 * 2 ^ (i - 53))%Q.
    + rewrite <- (round_exact 9007199254740991 (i - 53));
        [| unfold prec; change (2 ^ 53) with 9007199254740992; lia | unfold emin; lia].
      apply round_le. rewrite Eh.
      change (inject_Z 9007199254740991) with 9007199254740991%Q.
      revert Hy Em HSpos.
      generalize (Hours (M * (24 * Hour) - g)%Z / 24)%Q (inject_Z M) (2 ^ (i - 52))%Q.
      intros y m S Hy Em HSpos. lra.
    + rewrite Eh. change (inject_Z 9007199254740991) with 9007199254740991%Q.
      revert Em HSpos. generalize (inject_Z M) (2 ^ (i - 52))%Q.
      intros m S Em HSpos. lra.
  - pose proof (significand_bounds M i ltac:(lia) ltac:(lia)) as Hk.
    pose proof (scaled_value M i 0 ltac:(lia)) as S0.
    pose proof (scaled_value M i (1 # 2) ltac:(lia)) as S2.
    set (k := M * 2 ^ (52 - i) - 1) in *.
    apply Qle_lt_trans with (inject_Z k * 2 ^ (i - 52))%Q.
    + apply round_down; [exact Hk | unfold emin; lia |].
      rewrite S2. revert Hy HSpos.
      generalize (Hours (M * (24 * Hour) - g)%Z / 24)%Q (inject_Z M) (2 ^ (i - 52))%Q.
      intros y m S Hy HSpos. lra.
    + revert S0 HSpos. generalize (inject_Z k) (inject_Z M) (2 ^ (i - 52))%Q.
      intros a m S S0 HSpos.
      assert (E : (a * S == m - S)%Q)
        by (transitivity ((a + 0) * S)%Q; [ring | rewrite S0; ring]).
      rewrite E. lra.
Qed.

(** Inside the rounding window [Hours] rounds up to the whole number of
    hours, and the days left are already those of the next day. *)
Lemma days_of_fails (N g : Z) :
  0 <= N <= 106751 -> 1 <= g ->
  g * 2 ^ 53 <= Hour * 2 ^ Z.log2 (24 * (N + 1)) ->
  N + 1 <= days_of ((N + 1) * (24 * Hour) - g).
Proof.
  intros HN Hg Hw. destruct (log2_hours N HN) as [Hj HT].
  set (T := 24 * (N + 1)) in *. set (j := Z.log2 T) in *.
  assert (HP : 0 < 2 ^ j <= 2097152).
  { split; [apply Z.pow_pos_nonneg; lia |].
    change 2097152 with (2 ^ 21). apply Z.pow_le_mono_r; lia. }
  change (2 ^ 53) with 9007199254740992 in Hw.
  assert (Hs : g < Hour) by (rewrite Hour_value in *; lia).
  destruct (last_hour N g ltac:(lia) ltac:(lia)) as [Eq Er]. fold T in Eq.
  assert (HH : (inject_Z T <= Hours ((N + 1) * (24 * Hour) - g)%Z)%Q).
  { rewrite Hours_unfold, Eq, Er. unfold add.
    pose proof (significand_bounds T j ltac:(lia) HT) as Hk.
    pose proof (scaled_value T j (1 # 2) ltac:(lia)) as S2.
    pose proof (half_ulp j ltac:(lia)) as Hh.
    assert (Hodd : Z.even (T * 2 ^ (52 - j) - 1) = false).
    { replace (52 - j) with (1 + (51 - j)) by lia. rewrite Z.pow_add_r by lia.
      change (2 ^ 1) with 2.
      destruct (Z.even (T * (2 * 2 ^ (51 - j)) - 1)) eqn:E; [| reflexivity].
      apply Z.even_spec in E. destruct E as [m Em].
      set (W := T * 2 ^ (51 - j)) in *.
      replace (T * (2 * 2 ^ (51 - j))) with (2 * W) in Em by (unfold W; ring). lia. }
    assert (Ek : (inject_Z (T * 2 ^ (52 - j) - 1 + 1) * 2 ^ (j - 52) == inject_Z T)%Q).
    { replace (T * 2 ^ (52 - j) - 1 + 1) with (T * 2 ^ (52 - j)) by lia.
      rewrite inject_Z_mult, pow2_inject by lia.
      rewrite <- Qmult_assoc, <- pow2_add. replace (52 - j + (j - 52)) with 0 by lia.
      change (2 ^ 0)%Q with 1%Q. ring. }
    set (k := T * 2 ^ (52 - j) - 1) in *.
    assert (E1 : (of_int (T - 1) == inject_Z T - 1)%Q).
    { unfold of_int. rewrite round_int.
      - replace (T - 1) with (T + -1) by lia. rewrite inject_Z_plus. reflexivity.
      - unfold prec. change (2 ^ 53) with 9007199254740992. unfold T. lia. }
    assert (E2 : (1 - inject_Z (2 ^ j) * (1 # 9007199254740992)
                  <= hour_fraction (Hour - g))%Q).
    { rewrite hour_fraction_ratio
        by (rewrite Hour_value in *; change (2 ^ 53) with 9007199254740992; lia).
      rewrite <- below_one_tie. rewrite <- (round_53 (9007199254740992 - 2 ^ j)).
      - apply round_le. rewrite Hour_value in *. unfold Qle. cbn [Qnum Qden]. lia.
      - change (2 ^ 53) with 9007199254740992. lia. }
    rewrite <- Ek. apply round_tie_up; [exact Hk | exact Hodd | unfold emin; lia |].
    rewrite S2. revert E1 E2 Hh.
    generalize (of_int (T - 1)) (hour_fraction (Hour - g)) (inject_Z T)
               (inject_Z (2 ^ j)) (2 ^ (j - 52))%Q.
    intros a b c A U E1 E2 Hh. lra. }
  unfold days_of, div. change (of_int 24) with 24%Q.
  apply Z.le_trans with (to_int (inject_Z (N + 1))); [rewrite to_int_inject; lia |].
  apply to_int_le.
  rewrite <- (round_int (N + 1))
    by (unfold prec; change (2 ^ 53) with 9007199254740992; lia).
  apply round_le.
  assert (ET : (inject_Z T == 24 * inject_Z (N + 1))%Q)
    by (unfold T; rewrite inject_Z_mult; reflexivity).
  revert HH ET.
  generalize (Hours ((N + 1) * (24 * Hour) - g)%Z) (inject_Z T) (inject_Z (N + 1)).
  intros h t m HH ET. apply Qle_shift_div_l; [reflexivity | lra].
Qed.

End WindowDays.

(** ** The days left against the exact quotient *)

Lemma rounding_window_opp (d : Z) : rounding_window (- d) = rounding_window d.
Proof.
  unfold rounding_window.
  rewrite Z.quot_opp_l by (rewrite DaysFacts.Day_value; lia).
  rewrite Z.abs_opp. reflexivity.
Qed.

Lemma day_gap_opp (d : Z) : day_gap (- d) = day_gap d.
Proof.
  unfold day_gap.
  rewrite Z.rem_opp_l by (rewrite DaysFacts.Day_value; lia).
  rewrite Z.abs_opp. reflexivity.
Qed.

Lemma days_of_split (d : Z) :
  0 <= d <= maxDuration ->
  days_of d = d / (24 * Hour) + (if rounding_window d <? day_gap d then 0 else 1).
Proof.
  intros Hd. pose proof (days_of_above d Hd) as Hab.
  destruct TimeFacts.Duration_range as [_ Emax]. rewrite Emax in Hd.
  unfold rounding_window, day_gap.
  rewrite Z.quot_div_nonneg, Z.rem_mod_nonneg by (rewrite ?DaysFacts.Day_value; lia).
  pose proof (Z.div_mod d (24 * Hour) ltac:(rewrite DaysFacts.Day_value; lia)) as Ed.
  pose proof (Z.mod_pos_bound d (24 * Hour) ltac:(rewrite DaysFacts.Day_value; lia)) as Hr.
  set (N := d / (24 * Hour)) in *. set (r := d mod (24 * Hour)) in *.
  assert (HN : 0 <= N <= 106751) by (rewrite DaysFacts.Day_value in *; lia).
  rewrite (Z.abs_eq N), (Z.abs_eq r) by lia.
  destruct (WindowBounds.log2_hours N HN) as [Hj _].
  set (j := Z.log2 (24 * (N + 1))) in *.
  assert (Es : d = (N + 1) * (24 * Hour) - (24 * Hour - r)) by lia.
  destruct (Z.ltb_spec (Hour * 2 ^ j / 2 ^ 53) (24 * Hour - r)) as [Hlt | Hge].
  - assert (Hw : Hour * 2 ^ j < (24 * Hour - r) * 2 ^ 53).
    { destruct (Z_lt_le_dec (Hour * 2 ^ j) ((24 * Hour - r) * 2 ^ 53)) as [L | G];
        [exact L | exfalso].
      pose proof (Z.div_le_lower_bound (Hour * 2 ^ j) (2 ^ 53) (24 * Hour - r)
                    ltac:(reflexivity) ltac:(lia)).
      lia. }
    rewrite TimeFacts.Hour_value in Hw at 1.
    apply (WindowFacts.no_gap j _ ltac:(lia)) in Hw.
    rewrite <- TimeFacts.Hour_value in Hw.
    pose proof (WindowDays.days_of_upper N (24 * Hour - r) HN ltac:(lia) Hw) as Hup.
    rewrite <- Es in Hup. lia.
  - assert (Hw : (24 * Hour - r) * 2 ^ 53 <= Hour * 2 ^ j).
    { pose proof (Z.mul_div_le (Hour * 2 ^ j) (2 ^ 53) ltac:(reflexivity)).
      change (2 ^ 53) with 9007199254740992 in *. lia. }
    pose proof (WindowDays.days_of_fails N (24 * Hour - r) HN ltac:(lia) Hw) as Hlo.
    rewrite <- Es in Hlo. lia.
Qed.

(** The days left in terms of the exact quotient: inside the rounding
    window they are one day further from zero. *)
Lemma days_of_formula (d : Z) :
  minDuration <= d <= maxDuration ->
  days_of d = Z.quot d (24 * Hour)
              + (if rounding_window d <? day_gap d then 0 else Z.sgn d).
Proof.
  intros Hd. destruct TimeFacts.Duration_range as [Emin Emax].
  destruct (Z.eq_dec d minDuration) as [E | Hmin];
    [subst d; vm_compute; reflexivity |].
  destruct (Z.eq_dec d 0) as [E | H0]; [subst d; vm_compute; reflexivity |].
  destruct (Z_lt_le_dec d 0) as [Hn | Hp].
  - assert (Hr : 0 <= - d <= maxDuration) by (rewrite Emin, Emax in *; lia).
    pose proof (days_of_split (- d) Hr) as Hs.
    rewrite OppFacts.days_of_opp, rounding_window_opp, day_gap_opp in Hs.
    rewrite <- Z.quot_div_nonneg in Hs by (rewrite ?DaysFacts.Day_value; lia).
    rewrite Z.quot_opp_l in Hs by (rewrite DaysFacts.Day_value; lia).
    rewrite (Z.sgn_neg d Hn).
    destruct (rounding_window d <? day_gap d); lia.
  - pose proof (days_of_split d ltac:(lia)) as Hs.
    rewrite <- Z.quot_div_nonneg in Hs by (rewrite ?DaysFacts.Day_value; lia).
    rewrite (Z.sgn_pos d ltac:(lia)). exact Hs.
Qed.

Lemma quot_day_pos (d n : Z) :
  0 <= d -> (Z.quot d (24 * Hour) = n <-> n * (24 * Hour) <= d < (n + 1) * (24 * Hour)).
Proof.
  intros Hd. rewrite DaysFacts.Day_value.
  rewrite Z.quot_div_nonneg by lia.
  pose proof (Z.div_mod d 86400000000000 ltac:(lia)) as Ed.
  pose proof (Z.mod_pos_bound d 86400000000000 ltac:(lia)) as Hr.
  split; intros H; [lia |].
  symmetry. apply (Z.div_unique d 86400000000000 n (d - n * 86400000000000)); lia.
Qed.

Lemma quot_day_neg (d n : Z) :
  d <= 0 ->
  (Z.quot d (24 * Hour) = - n <-> - ((n + 1) * (24 * Hour)) < d <= - (n * (24 * Hour))).
Proof.
  intros Hd. rewrite <- (Z.opp_involutive d) at 1.
  rewrite Z.quot_opp_l by (rewrite DaysFacts.Day_value; lia).
  pose proof (quot_day_pos (- d) n ltac:(lia)) as H.
  split; intros E.
  - assert (E' : Z.quot (- d) (24 * Hour) = n) by lia. apply H in E'. lia.
  - assert (E' : Z.quot (- d) (24 * Hour) = n) by (apply H; lia). lia.
Qed.

Lemma rounding_window_le (d n j : Z) :
  0 <= d < (n + 1) * (24 * Hour) -> 0 <= j -> 24 * (n + 1) < 2 ^ (j + 1) ->
  0 <= rounding_window d <= Hour * 2 ^ j / 2 ^ 53.
Proof.
  intros Hd Hj Hn. unfold rounding_window.
  rewrite Z.quot_div_nonneg by (rewrite ?DaysFacts.Day_value; lia).
  assert (H0 : 0 <= d / (24 * Hour))
    by (apply Z.div_pos; rewrite ?DaysFacts.Day_value; lia).
  assert (H1 : d / (24 * Hour) < n + 1)
    by (apply Z.div_lt_upper_bound; rewrite ?DaysFacts.Day_value in *; lia).
  rewrite Z.abs_eq by exact H0. set (N := d / (24 * Hour)) in *.
  assert (Hl : Z.log2 (24 * (N + 1)) < j + 1) by (apply Z.log2_lt_pow2; lia).
  pose proof (Z.log2_nonneg (24 * (N + 1))) as Hl0.
  assert (Hp : 0 < 2 ^ Z.log2 (24 * (N + 1)) <= 2 ^ j).
  { split; [apply Z.pow_pos_nonneg; lia | apply Z.pow_le_mono_r; lia]. }
  rewrite TimeFacts.Hour_value. split.
  - apply Z.div_pos; [lia | reflexivity].
  - apply Z.div_le_mono; [reflexivity | lia].
Qed.

(** The rounding window is empty below 170 days and never wider than
    838 ns. *)
Lemma rounding_window_size (d : Z) :
  (minDuration <= d <= maxDuration -> 0 <= rounding_window d <= 838) /\
  (- (170 * (24 * Hour)) < d < 170 * (24 * Hour) -> rounding_window d = 0).
Proof.
  destruct TimeFacts.Duration_range as [Emin Emax]. rewrite Emin, Emax.
  rewrite DaysFacts.Day_value. split; intros Hd.
  - destruct (Z_lt_le_dec d 0) as [Hn | Hp].
    + rewrite <- rounding_window_opp.
      apply (rounding_window_le (- d) 106751 21);
        [rewrite DaysFacts.Day_value; lia | lia | reflexivity].
    + apply (rounding_window_le d 106751 21);
        [rewrite DaysFacts.Day_value; lia | lia | reflexivity].
  - destruct (Z_lt_le_dec d 0) as [Hn | Hp].
    + rewrite <- rounding_window_opp.
      pose proof (rounding_window_le (- d) 169 11
                    ltac:(rewrite DaysFacts.Day_value; lia) ltac:(lia) ltac:(reflexivity)) as H.
      change (Hour * 2 ^ 11 / 2 ^ 53) with 0 in H. lia.
    + pose proof (rounding_window_le d 169 11
                    ltac:(rewrite DaysFacts.Day_value; lia) ltac:(lia) ltac:(reflexivity)) as H.
      change (Hour * 2 ^ 11 / 2 ^ 53) with 0 in H. lia.
Qed.

(** C2, amended.  The days left of line 115 are the distance from today to
    the expiry divided by 24 hours with the fraction discarded toward zero
    exactly at the distances of [exact_at]: within the range of [Duration],
    those more than [rounding_window] nanoseconds short of the next whole
    number of days away from zero; beyond that range, those short of 106752
    days.  Within the range, the days left of the other distances are one
    day further from zero than the quotient.  The window is empty for
    distances below 170 days and never wider than 838 ns.  In particular an
    expiry 24*N + 1 hours ahead leaves N days, not N + 1, as long as the
    distance fits a [Duration]. *)
Theorem daysLeft_exact (expire today : Time) :
  (daysLeft expire today = exact_days expire today <->
   exact_at (since expire today) = true) /\
  (minDuration <= since expire today <= maxDuration ->
   daysLeft expire today =
   exact_days expire today
   + (if exact_at (since expire today) then 0 else Z.sgn (since expire today))) /\
  (minDuration <= since expire today <= maxDuration ->
   0 <= rounding_window (since expire today) <= 838) /\
  (- (170 * (24 * Hour)) < since expire today < 170 * (24 * Hour) ->
   rounding_window (since expire today) = 0) /\
  (forall N : Z, 0 <= N -> since expire today <= maxDuration ->
                 since expire today = (24 * N + 1) * Hour ->
                 daysLeft expire today = N).
Proof.
  rewrite daysLeft_days_of. unfold exact_days, exact_at, Sub.
  set (d := since expire today).
  destruct (rounding_window_size d) as [W1 W2].
  destruct TimeFacts.Duration_range as [Emin Emax].
  destruct days_of_ends as [Dmin Dmax].
  destruct (Z.ltb_spec d minDuration) as [Hlo | Hlo];
    [| destruct (Z.ltb_spec maxDuration d) as [Hhi | Hhi]].
  - rewrite Emin in *. rewrite Dmin.
    split; [split | split; [| split; [exact W1 | split; [exact W2 |]]]].
    + intros E. apply Z.ltb_lt. symmetry in E.
      apply (quot_day_neg d 106751 ltac:(lia)) in E. lia.
    + intros E. apply Z.ltb_lt in E. symmetry.
      apply (quot_day_neg d 106751 ltac:(lia)).
      rewrite DaysFacts.Day_value in *. lia.
    + lia.
    + intros N HN _ EN. rewrite TimeFacts.Hour_value in EN. lia.
  - rewrite Emax in *. rewrite Dmax.
    split; [split | split; [| split; [exact W1 | split; [exact W2 |]]]].
    + intros E. apply Z.ltb_lt. symmetry in E.
      apply (quot_day_pos d 106751 ltac:(lia)) in E. lia.
    + intros E. apply Z.ltb_lt in E. symmetry.
      apply (quot_day_pos d 106751 ltac:(lia)).
      rewrite DaysFacts.Day_value in *. lia.
    + lia.
    + lia.
  - pose proof (days_of_formula d ltac:(lia)) as F.
    assert (Hz : (rounding_window d <? day_gap d) = false -> Z.sgn d <> 0).
    { intros Hw. destruct (Z.eq_dec d 0) as [E0 | N0].
      - rewrite E0 in Hw. vm_compute in Hw. discriminate.
      - pose proof (Z.sgn_null_iff d). lia. }
    split; [split | split; [| split; [exact W1 | split; [exact W2 |]]]].
    + intros E. destruct (rounding_window d <? day_gap d); [reflexivity |].
      specialize (Hz eq_refl). lia.
    + intros E. rewrite E in F. lia.
    + intros _. exact F.
    + intros N HN _ EN. rewrite EN in *.
      rewrite DaysFacts.days_of_whole_hours by lia.
      symmetry. apply (Z.quot_unique _ _ _ 1); lia.
Qed.

(** 200 days, 5 hours, 30 minutes and 17.123456789 seconds after the new
    year: the days left are the exact quotient, 200. *)
Lemma daysLeft_exact_witness :
  let expire := {| sec := 1704067200 + 200 * 86400 + 5 * 3600 + 30 * 60 + 17;
                   nsec := 123456789 |} in
  exact_at (since expire Scenario.new_year) = true /\
  daysLeft expire Scenario.new_year = exact_days expire Scenario.new_year /\
  exact_days expire Scenario.new_year = 200.
Proof.
  intros expire.
  assert (E : exact_at (since expire Scenario.new_year) = true)
    by (vm_compute; reflexivity).
  split; [exact E |]. split.
  - apply (proj1 (daysLeft_exact expire Scenario.new_year)). exact E.
  - vm_compute. reflexivity.
Defined.

(** The edges of the rounding window, evaluated: at the 171st day the last
    nanosecond is inside it, at the 342nd the last three, at the 100000th
    the last 838; beyond the range of [Duration] the quotient is met up to
    106752 days. *)
Example exact_at_edges :
  map exact_at
      [170 * (24 * Hour) - 1; 171 * (24 * Hour) - 1; 171 * (24 * Hour) - 2;
       342 * (24 * Hour) - 3; 342 * (24 * Hour) - 4;
       100000 * (24 * Hour) - 838; 100000 * (24 * Hour) - 839;
       - (171 * (24 * Hour)) + 1; - (171 * (24 * Hour)) + 2;
       maxDuration + 1; 106752 * (24 * Hour) - 1; 106752 * (24 * Hour);
       minDuration - 1; - (106752 * (24 * Hour))]
  = [true; false; true; false; true; false; true; false; true;
     true; true; false; true; false].
Proof. vm_compute. reflexivity. Qed.

(** On the same edges the model and the Standard Library's IEEE 754
    operations give the same days. *)
Example Float64_agrees_on_the_edges :
  forallb (fun d =>
             Qeq_bool (Float64.div (Hours d) (Float64.of_int 24))
                      (Float64Ref.to_Q (Float64Ref.days d)))
          [170 * (24 * Hour) - 1; 171 * (24 * Hour) - 1; 171 * (24 * Hour) - 2;
           342 * (24 * Hour) - 3; 342 * (24 * Hour) - 4;
           100000 * (24 * Hour) - 838; 100000 * (24 * Hour) - 839;
           - (171 * (24 * Hour)) + 1; - (171 * (24 * Hour)) + 2;
           17300717123456789] = true.
Proof. vm_compute. reflexivity. Qed.
